(** * AI speech interface template: the client-side store and visualisation

    A shallow embedding of the React front end of the repository:

    - [frontend/src/App.tsx]: the store that the RTVI client callbacks
      update ([handleServerMessage], [handleUserTranscript], ...), the
      5 second safety timeout and [handleConnect];
    - [frontend/src/components/ShowcaseLayout.tsx]: the transcript history,
      the idle / listening / thinking indicator, the reset on a new
      connection and the two waveform analysers.

    React state is modelled by explicit state passing.  A callback of the
    client is an event; an event runs its handler and then the render
    cycle: effects whose dependencies changed run in declaration order on
    the values of that render, state updates are queued and applied in
    order before the next render, refs are written at once, and the cycle
    repeats while an effect changed state.  Events are applied one at a
    time, each to completion.  Time is a logical clock in milliseconds
    that only [Elapse] events advance. *)

From Stdlib Require Import ZArith List String Ascii Bool Lia Reals Lra.
From stdpp Require Import base option list sets gmap strings.
Import ListNotations.

Local Open Scope string_scope.
Local Open Scope list_scope.

(** ** JavaScript values of a server message

    [onServerMessage] receives a parsed JSON value ([message: any]).
    Numbers are kept as integers: the handlers only test them for
    truthiness. *)

#[local] Unset Elimination Schemes.
Inductive JsVal : Type :=
| JUndefined
| JNull
| JBool (b : bool)
| JNum (n : Z)
| JStr (s : string)
| JArr (items : list JsVal)
| JObj (fields : list (string * JsVal)).
#[local] Set Elimination Schemes.

(** Truthiness, as [||] and [if] test it. *)
Definition truthy (v : JsVal) : bool :=
  match v with
  | JUndefined | JNull => false
  | JBool b => b
  | JNum n => negb (n =? 0)%Z
  | JStr s => negb (String.eqb s "")
  | JArr _ | JObj _ => true
  end.

(** [a || b] *)
Definition js_or (a b : JsVal) : JsVal := if truthy a then a else b.

(** [a ?? b] *)
Definition js_nullish (a b : JsVal) : JsVal :=
  match a with
  | JUndefined | JNull => b
  | _ => a
  end.

Fixpoint lookup_field (k : string) (fields : list (string * JsVal)) : JsVal :=
  match fields with
  | [] => JUndefined
  | (k', v) :: rest => if String.eqb k k' then v else lookup_field k rest
  end.

(** [v?.k] for the property names the handlers read ([data], [type],
    [all_topics], ...): none of them is a built-in property of a string,
    a number or an array, so only objects answer. *)
Definition js_get (v : JsVal) (k : string) : JsVal :=
  match v with
  | JObj fields => lookup_field k fields
  | _ => JUndefined
  end.

(** [a === b] against a string literal. *)
Definition js_is_str (v : JsVal) (s : string) : bool :=
  match v with
  | JStr s' => String.eqb s' s
  | _ => false
  end.

(** ** The store of App.tsx *)

(** [interface CourseState]; at run time the fields hold whatever the
    payload carried. *)
Record CourseState : Type := mkCourseState {
  all_topics : JsVal;
  discussed_topics : JsVal;
  responses : JsVal;
  remaining_topics : JsVal;
  current_topics : JsVal;
  current_node : JsVal;
  progress : JsVal
}.

Record Transcripts : Type := mkTranscripts {
  user : string;
  bot : string
}.

(** The payload of [onUserTranscript] and [onBotTtsText]: [text] is a
    string and [final] a boolean when they are present. *)
Record TranscriptData : Type := mkTranscriptData {
  text : option string;
  final : option bool
}.

Record AppState : Type := mkAppState {
  courseState : CourseState;
  transcripts : Transcripts;
  isBotSpeaking : bool;
  streamingUserText : string;
  isUserSpeaking : bool;
  streamingUserTextRef : string
}.

Definition initialCourseState : CourseState :=
  {| all_topics := JArr [];
     discussed_topics := JArr [];
     responses := JObj [];
     remaining_topics := JArr [];
     current_topics := JArr [];
     current_node := JStr "initial";
     progress := JStr "0/3" |}.

Definition initialApp : AppState :=
  {| courseState := initialCourseState;
     transcripts := {| user := ""; bot := "" |};
     isBotSpeaking := false;
     streamingUserText := "";
     isUserSpeaking := false;
     streamingUserTextRef := "" |}.

Definition setCourseState (c : CourseState) (a : AppState) : AppState :=
  {| courseState := c;
     transcripts := transcripts a;
     isBotSpeaking := isBotSpeaking a;
     streamingUserText := streamingUserText a;
     isUserSpeaking := isUserSpeaking a;
     streamingUserTextRef := streamingUserTextRef a |}.

Definition setTranscripts (t : Transcripts) (a : AppState) : AppState :=
  {| courseState := courseState a;
     transcripts := t;
     isBotSpeaking := isBotSpeaking a;
     streamingUserText := streamingUserText a;
     isUserSpeaking := isUserSpeaking a;
     streamingUserTextRef := streamingUserTextRef a |}.

Definition setIsBotSpeaking (b : bool) (a : AppState) : AppState :=
  {| courseState := courseState a;
     transcripts := transcripts a;
     isBotSpeaking := b;
     streamingUserText := streamingUserText a;
     isUserSpeaking := isUserSpeaking a;
     streamingUserTextRef := streamingUserTextRef a |}.

Definition setStreamingUserText (s : string) (a : AppState) : AppState :=
  {| courseState := courseState a;
     transcripts := transcripts a;
     isBotSpeaking := isBotSpeaking a;
     streamingUserText := s;
     isUserSpeaking := isUserSpeaking a;
     streamingUserTextRef := streamingUserTextRef a |}.

Definition setIsUserSpeaking (b : bool) (a : AppState) : AppState :=
  {| courseState := courseState a;
     transcripts := transcripts a;
     isBotSpeaking := isBotSpeaking a;
     streamingUserText := streamingUserText a;
     isUserSpeaking := b;
     streamingUserTextRef := streamingUserTextRef a |}.

(** [streamingUserTextRef.current = s] *)
Definition setStreamingUserTextRef (s : string) (a : AppState) : AppState :=
  {| courseState := courseState a;
     transcripts := transcripts a;
     isBotSpeaking := isBotSpeaking a;
     streamingUserText := streamingUserText a;
     isUserSpeaking := isUserSpeaking a;
     streamingUserTextRef := s |}.

(** [message?.data ?? message] *)
Definition message_data (message : JsVal) : JsVal :=
  js_nullish (js_get message "data") message.

Definition handleServerMessage (a : AppState) (message : JsVal) : AppState :=
  let data := message_data message in
  if js_is_str (js_get data "type") "conversation_state_update" then
    setCourseState
      {| all_topics := js_or (js_get data "all_topics") (JArr []);
         discussed_topics := js_or (js_get data "discussed_topics") (JArr []);
         responses := js_or (js_get data "responses") (JObj []);
         remaining_topics := js_or (js_get data "remaining_topics") (JArr []);
         current_topics := js_or (js_get data "current_topics") (JArr []);
         current_node := js_or (js_get data "current_node") (JStr "initial");
         progress := js_or (js_get data "progress") (JStr "0/3") |} a
  else a.

(** [data?.text], with its truthiness: [Some s] when the text is present
    and not empty. *)
Definition data_text (data : option TranscriptData) : option string :=
  match data with
  | Some d =>
      match text d with
      | Some s => if String.eqb s "" then None else Some s
      | None => None
      end
  | None => None
  end.

(** [data?.final !== false] *)
Definition data_isFinal (data : option TranscriptData) : bool :=
  match data with
  | Some d => match final d with Some false => false | _ => true end
  | None => true
  end.

Definition handleUserTranscript (a : AppState) (data : option TranscriptData)
  : AppState :=
  let isFinal := data_isFinal data in
  match data_text data with
  | Some t =>
      if negb isFinal then
        setIsUserSpeaking true
          (setStreamingUserTextRef t (setStreamingUserText t a))
      else
        setIsUserSpeaking false
          (setStreamingUserTextRef ""
             (setStreamingUserText ""
                (setTranscripts {| user := t; bot := bot (transcripts a) |} a)))
  | None => a
  end.

(** White space in the sense of [String.prototype.trim], on the code
    units a [string] holds here (0..255): TAB, LF, VT, FF, CR, SPACE and
    NBSP. *)
Definition js_whitespace (c : ascii) : bool :=
  let n := nat_of_ascii c in
  (n =? 9)%nat || (n =? 10)%nat || (n =? 11)%nat || (n =? 12)%nat
  || (n =? 13)%nat || (n =? 32)%nat || (n =? 160)%nat.

(** Truthiness of [s.trim()]: some character is not white space. *)
Fixpoint trim_nonempty (s : string) : bool :=
  match s with
  | EmptyString => false
  | String c rest => negb (js_whitespace c) || trim_nonempty rest
  end.

Definition handleBotTtsText (a : AppState) (data : option TranscriptData)
  : AppState :=
  match data_text data with
  | Some t =>
      if trim_nonempty t then
        setTranscripts {| user := user (transcripts a); bot := t |} a
      else a
  | None => a
  end.

Definition handleBotStartedSpeaking (a : AppState) : AppState :=
  setIsBotSpeaking true a.

Definition handleBotStoppedSpeaking (a : AppState) : AppState :=
  setIsBotSpeaking false a.

Definition handleUserStartedSpeaking (a : AppState) : AppState :=
  setIsUserSpeaking true a.

Definition handleConnected (a : AppState) : AppState :=
  setIsBotSpeaking false
    (setIsUserSpeaking false
       (setStreamingUserText ""
          (setTranscripts {| user := ""; bot := "" |} a))).

Definition handleDisconnected (a : AppState) : AppState :=
  setIsBotSpeaking false
    (setIsUserSpeaking false (setStreamingUserText "" a)).

(** The callback the safety timeout runs when it fires.  What it hands to
    [setTranscripts] is an updater function,
    [prev => ({ ...prev, user: streamingUserTextRef.current })]: React
    queues an updater and calls it in the next render, after the callback
    has run to its end, and only then is the ref read.  By then the
    callback has set the ref to the empty string. *)
Definition safetyTimeoutCallback (a : AppState) : AppState :=
  let updaterQueued := negb (String.eqb (streamingUserTextRef a) "") in
  let a1 :=
    setIsUserSpeaking false
      (setStreamingUserTextRef "" (setStreamingUserText "" a)) in
  if updaterQueued then
    setTranscripts
      {| user := streamingUserTextRef a1; bot := bot (transcripts a1) |} a1
  else a1.

(** The same callback with the updater called at once, while the ref
    still holds the text, as React does on its eager path when no other
    update of the component is pending. *)
Definition safetyTimeoutCallbackEager (a : AppState) : AppState :=
  let a1 :=
    if negb (String.eqb (streamingUserTextRef a) "") then
      setTranscripts
        {| user := streamingUserTextRef a; bot := bot (transcripts a) |} a
    else a in
  setIsUserSpeaking false
    (setStreamingUserTextRef "" (setStreamingUserText "" a1)).

(** The silence guard, in milliseconds. *)
Definition SAFETY_TIMEOUT_MS : nat := 5000.

(** ** The state of ShowcaseLayout.tsx *)

Inductive Speaker : Type := SpUser | SpBot.

Record TranscriptMessage : Type := mkTranscriptMessage {
  speaker : Speaker;
  msg_text : string;
  timestamp : nat
}.

(** The type of [conversationState]. *)
Inductive ConversationMode : Type := idle | listening | thinking.

(** Modelled from the spec: the transport state type of the client
    library ([client.state]), which is not part of the repository; the
    spec names the states disconnected, connecting, ready and closing. *)
Inductive TransportState : Type := disconnected | connecting | ready | closing.

Definition Speaker_eqb (a b : Speaker) : bool :=
  match a, b with
  | SpUser, SpUser | SpBot, SpBot => true
  | _, _ => false
  end.

Definition ConversationMode_eqb (a b : ConversationMode) : bool :=
  match a, b with
  | idle, idle | listening, listening | thinking, thinking => true
  | _, _ => false
  end.

Definition TransportState_eqb (a b : TransportState) : bool :=
  match a, b with
  | disconnected, disconnected | connecting, connecting
  | ready, ready | closing, closing => true
  | _, _ => false
  end.

(** What the component function sees in one render: the props from App
    and [client?.state ?? 'disconnected']. *)
Record Props : Type := mkProps {
  p_transcripts : Transcripts;
  p_isUserSpeaking : bool;
  p_transportState : TransportState
}.

(** The dependency arrays of the effects, as React keeps them from the
    last committed render.  The history array is compared by identity:
    [historyId] names the array object held in [transcriptHistory]. *)
Record Deps : Type := mkDeps {
  dep_isUserSpeaking : bool;
  dep_historyId : nat;
  dep_conversationState : ConversationMode;
  dep_user : string;
  dep_bot : string;
  dep_transportState : TransportState
}.

Record Layout : Type := mkLayout {
  transcriptHistory : list TranscriptMessage;
  historyId : nat;
  conversationState : ConversationMode;
  prevIsUserSpeaking : bool;
  lastProcessedTts : string;
  rendered : option Deps
}.

Definition unmountedLayout : Layout :=
  {| transcriptHistory := [];
     historyId := 0;
     conversationState := idle;
     prevIsUserSpeaking := false;
     lastProcessedTts := "";
     rendered := None |}.

Definition setConversationState (m : ConversationMode) (l : Layout) : Layout :=
  {| transcriptHistory := transcriptHistory l;
     historyId := historyId l;
     conversationState := m;
     prevIsUserSpeaking := prevIsUserSpeaking l;
     lastProcessedTts := lastProcessedTts l;
     rendered := rendered l |}.

(** [setTranscriptHistory] with a freshly built array. *)
Definition setTranscriptHistory (h : list TranscriptMessage) (l : Layout)
  : Layout :=
  {| transcriptHistory := h;
     historyId := S (historyId l);
     conversationState := conversationState l;
     prevIsUserSpeaking := prevIsUserSpeaking l;
     lastProcessedTts := lastProcessedTts l;
     rendered := rendered l |}.

Definition setPrevIsUserSpeaking (b : bool) (l : Layout) : Layout :=
  {| transcriptHistory := transcriptHistory l;
     historyId := historyId l;
     conversationState := conversationState l;
     prevIsUserSpeaking := b;
     lastProcessedTts := lastProcessedTts l;
     rendered := rendered l |}.

Definition setLastProcessedTts (s : string) (l : Layout) : Layout :=
  {| transcriptHistory := transcriptHistory l;
     historyId := historyId l;
     conversationState := conversationState l;
     prevIsUserSpeaking := prevIsUserSpeaking l;
     lastProcessedTts := s;
     rendered := rendered l |}.

Definition setRendered (d : Deps) (l : Layout) : Layout :=
  {| transcriptHistory := transcriptHistory l;
     historyId := historyId l;
     conversationState := conversationState l;
     prevIsUserSpeaking := prevIsUserSpeaking l;
     lastProcessedTts := lastProcessedTts l;
     rendered := Some d |}.

(** [[...prev].reverse().find(m => m.speaker === sp)] *)
Definition lastMsgOf (sp : Speaker) (prev : list TranscriptMessage)
  : option TranscriptMessage :=
  List.find (fun m => Speaker_eqb (speaker m) sp) (rev prev).

(** Effect 1, on [isUserSpeaking]: the edges of user speaking. *)
Definition speakingEdgeEffect (p : Props) (l : Layout) : Layout :=
  let l1 :=
    if negb (prevIsUserSpeaking l) && p_isUserSpeaking p then
      setConversationState listening l
    else if prevIsUserSpeaking l && negb (p_isUserSpeaking p) then
      setConversationState thinking l
    else l in
  setPrevIsUserSpeaking (p_isUserSpeaking p) l1.

(** Effect 2, on [transcriptHistory, conversationState]: clear thinking
    when the bot responds.  It reads the values of the render it belongs
    to ([hist], [mode]) and queues its update on the pending state. *)
Definition clearThinkingEffect (hist : list TranscriptMessage)
    (mode : ConversationMode) (l : Layout) : Layout :=
  if ConversationMode_eqb mode thinking && (0 <? length hist)%nat then
    match last hist with
    | Some m =>
        if Speaker_eqb (speaker m) SpBot then setConversationState idle l
        else l
    | None => l
    end
  else l.

(** Effect 3, on [transcripts.user, isUserSpeaking]: add final user
    transcripts to the history. *)
Definition userHistoryEffect (now : nat) (p : Props) (l : Layout) : Layout :=
  let u := user (p_transcripts p) in
  if negb (String.eqb u "") && trim_nonempty u && negb (p_isUserSpeaking p) then
    let prev := transcriptHistory l in
    match lastMsgOf SpUser prev with
    | Some lastUserMsg =>
        if negb (String.eqb (msg_text lastUserMsg) u) then
          setTranscriptHistory
            (prev ++ [ {| speaker := SpUser; msg_text := u; timestamp := now |} ]) l
        else l
    | None =>
        setTranscriptHistory
          (prev ++ [ {| speaker := SpUser; msg_text := u; timestamp := now |} ]) l
    end
  else l.

(** Effect 4, on [transcripts.bot]: add bot transcripts to the history. *)
Definition botHistoryEffect (now : nat) (p : Props) (l : Layout) : Layout :=
  let b := bot (p_transcripts p) in
  if negb (String.eqb b "") && trim_nonempty b
     && negb (String.eqb b (lastProcessedTts l)) then
    let l1 := setLastProcessedTts b l in
    let prev := transcriptHistory l1 in
    match lastMsgOf SpBot prev with
    | Some lastBotMsg =>
        if String.eqb (msg_text lastBotMsg) b then l1
        else
          setTranscriptHistory
            (prev ++ [ {| speaker := SpBot; msg_text := b; timestamp := now |} ]) l1
    | None =>
        setTranscriptHistory
          (prev ++ [ {| speaker := SpBot; msg_text := b; timestamp := now |} ]) l1
    end
  else l.

(** Effect 5, on [transportState]: reset the history on a new connection. *)
Definition resetOnReadyEffect (p : Props) (l : Layout) : Layout :=
  if TransportState_eqb (p_transportState p) ready then
    setLastProcessedTts "" (setTranscriptHistory [] l)
  else l.

(** Has a dependency changed since the last render?  Every effect runs on
    the first render. *)
Definition depChanged (l : Layout) (same : Deps -> bool) : bool :=
  match rendered l with
  | Some d => negb (same d)
  | None => true
  end.

(** One render and the effects it triggers, in declaration order. *)
Definition effectsPass (now : nat) (p : Props) (l : Layout) : Layout :=
  let hist := transcriptHistory l in
  let hid := historyId l in
  let mode := conversationState l in
  let l1 :=
    if depChanged l (fun d => Bool.eqb (dep_isUserSpeaking d) (p_isUserSpeaking p))
    then speakingEdgeEffect p l else l in
  let l2 :=
    if depChanged l (fun d => (dep_historyId d =? hid)%nat
                              && ConversationMode_eqb (dep_conversationState d) mode)
    then clearThinkingEffect hist mode l1 else l1 in
  let l3 :=
    if depChanged l (fun d => String.eqb (dep_user d) (user (p_transcripts p))
                              && Bool.eqb (dep_isUserSpeaking d) (p_isUserSpeaking p))
    then userHistoryEffect now p l2 else l2 in
  let l4 :=
    if depChanged l (fun d => String.eqb (dep_bot d) (bot (p_transcripts p)))
    then botHistoryEffect now p l3 else l3 in
  let l5 :=
    if depChanged l (fun d => TransportState_eqb (dep_transportState d)
                                (p_transportState p))
    then resetOnReadyEffect p l4 else l4 in
  setRendered
    {| dep_isUserSpeaking := p_isUserSpeaking p;
       dep_historyId := hid;
       dep_conversationState := mode;
       dep_user := user (p_transcripts p);
       dep_bot := bot (p_transcripts p);
       dep_transportState := p_transportState p |} l5.

(** An effect changed state: React renders again. *)
Definition needsRender (l : Layout) : bool :=
  match rendered l with
  | Some d =>
      negb ((dep_historyId d =? historyId l)%nat
            && ConversationMode_eqb (dep_conversationState d) (conversationState l))
  | None => true
  end.

(** Render until no effect changes state. *)
Fixpoint settle (fuel : nat) (now : nat) (p : Props) (l : Layout) : Layout :=
  match fuel with
  | O => l
  | S k =>
      let l' := effectsPass now p l in
      if needsRender l' then settle k now p l' else l'
  end.

(** Three renders always suffice (see [settle_enough]). *)
Definition RENDER_FUEL : nat := 3.

(** ** The running application *)

(** The callbacks of [clientOptions], a change of [client.state] and the
    passing of time. *)
Inductive Event : Type :=
| ServerMessage (message : JsVal)
| UserTranscript (data : option TranscriptData)
| BotTtsText (data : option TranscriptData)
| BotStartedSpeaking
| BotStoppedSpeaking
| UserStartedSpeaking
| Connected
| Disconnected
| TransportStateChange (s : TransportState)
| Elapse (ms : nat).

(** [safetyTimeout] is the pending [setTimeout] of the safety effect, as
    the time at which it fires; [timeoutDep] is the [isUserSpeaking] that
    effect last ran with. *)
Record World : Type := mkWorld {
  app : AppState;
  layout : Layout;
  transportState : TransportState;
  now : nat;
  safetyTimeout : option nat;
  timeoutDep : option bool
}.

Definition propsOf (w : World) : Props :=
  {| p_transcripts := transcripts (app w);
     p_isUserSpeaking := isUserSpeaking (app w);
     p_transportState := transportState w |}.

(** The safety effect of App, on [isUserSpeaking]: its clean-up clears
    the pending timeout, its body arms a new one while the user speaks. *)
Definition safetyTimeoutEffect (w : World) : World :=
  let speaking := isUserSpeaking (app w) in
  let changed :=
    match timeoutDep w with
    | Some b => negb (Bool.eqb b speaking)
    | None => true
    end in
  {| app := app w;
     layout := layout w;
     transportState := transportState w;
     now := now w;
     safetyTimeout :=
       if changed then
         if speaking then Some (now w + SAFETY_TIMEOUT_MS) else None
       else safetyTimeout w;
     timeoutDep := Some speaking |}.

(** Render after a state change: the effects of ShowcaseLayout (the
    child) until they settle, and the safety effect of App. *)
Definition render (w : World) : World :=
  safetyTimeoutEffect
    {| app := app w;
       layout := settle RENDER_FUEL (now w) (propsOf w) (layout w);
       transportState := transportState w;
       now := now w;
       safetyTimeout := safetyTimeout w;
       timeoutDep := timeoutDep w |}.

Definition withApp (a : AppState) (w : World) : World :=
  {| app := a;
     layout := layout w;
     transportState := transportState w;
     now := now w;
     safetyTimeout := safetyTimeout w;
     timeoutDep := timeoutDep w |}.

Definition withTransportState (s : TransportState) (w : World) : World :=
  {| app := app w;
     layout := layout w;
     transportState := s;
     now := now w;
     safetyTimeout := safetyTimeout w;
     timeoutDep := timeoutDep w |}.

Definition withNow (t : nat) (w : World) : World :=
  {| app := app w;
     layout := layout w;
     transportState := transportState w;
     now := t;
     safetyTimeout := safetyTimeout w;
     timeoutDep := timeoutDep w |}.

(** The timeout fires: it is no longer pending, and its callback runs. *)
Definition fireSafetyTimeout (w : World) : World :=
  {| app := safetyTimeoutCallback (app w);
     layout := layout w;
     transportState := transportState w;
     now := now w;
     safetyTimeout := None;
     timeoutDep := timeoutDep w |}.

Definition step (w : World) (e : Event) : World :=
  match e with
  | ServerMessage message => render (withApp (handleServerMessage (app w) message) w)
  | UserTranscript data => render (withApp (handleUserTranscript (app w) data) w)
  | BotTtsText data => render (withApp (handleBotTtsText (app w) data) w)
  | BotStartedSpeaking => render (withApp (handleBotStartedSpeaking (app w)) w)
  | BotStoppedSpeaking => render (withApp (handleBotStoppedSpeaking (app w)) w)
  | UserStartedSpeaking => render (withApp (handleUserStartedSpeaking (app w)) w)
  | Connected => render (withApp (handleConnected (app w)) w)
  | Disconnected => render (withApp (handleDisconnected (app w)) w)
  | TransportStateChange s => render (withTransportState s w)
  | Elapse ms =>
      let t := now w + ms in
      match safetyTimeout w with
      | Some deadline =>
          if (deadline <=? t)%nat then
            withNow t (render (fireSafetyTimeout (withNow (Nat.max (now w) deadline) w)))
          else withNow t w
      | None => withNow t w
      end
  end.

Definition run (w : World) (es : list Event) : World := fold_left step es w.

(** The application after its first render, not yet connected. *)
Definition initialWorld : World :=
  render
    {| app := initialApp;
       layout := unmountedLayout;
       transportState := disconnected;
       now := 0;
       safetyTimeout := None;
       timeoutDep := None |}.

(** The derived views the statements speak of. *)
Definition history (w : World) : list TranscriptMessage :=
  transcriptHistory (layout w).

Definition mode (w : World) : ConversationMode := conversationState (layout w).

Definition userSpeaking (w : World) : bool := isUserSpeaking (app w).

(** ** The waveform analysis of ShowcaseLayout.tsx

    JavaScript numbers are taken as real numbers.  On the values the
    loop handles, every step but [Math.sqrt] and the final product is
    exact in double precision. *)

Local Open Scope R_scope.

(** [analyser.fftSize], the length of [dataArray]. *)
Definition FFT_SIZE : nat := 256.

(** The number of bars; the literal 32 of the loops. *)
Definition NUM_BARS : nat := 32.

(** [dataArray[k]], a byte of the [Uint8Array].  The loops only read
    indices below [32 * segmentSize <= dataArray.length]. *)
Definition sampleAt (dataArray : list Z) (k : nat) : R :=
  IZR (nth k dataArray 0%Z).

(** The inner loop: [sum] after [j] ran over [0 .. segmentSize - 1]. *)
Definition segmentSum (dataArray : list Z) (segmentSize i : nat) : R :=
  fold_left
    (fun sum j =>
       let val := Rabs ((sampleAt dataArray (i * segmentSize + j) - 128) / 128) in
       sum + val * val)
    (seq 0 segmentSize) 0.

(** The value pushed for bar [i]. *)
Definition barValue (dataArray : list Z) (segmentSize i : nat) : R :=
  let rms := sqrt (segmentSum dataArray segmentSize i / INR segmentSize) in
  Rmax 5 (Rmin 95 (rms * 400)).

(** The outer loop of [animate]: the array handed to [setBotBars] and
    [setMicBars] (both effects carry the same loop). *)
Definition computeBars (dataArray : list Z) : list R :=
  let segmentSize := (length dataArray / 32)%nat in
  fold_left
    (fun bars i => bars ++ [barValue dataArray segmentSize i])
    (seq 0 32) [].

(** [Array(32).fill(5)], the initial bars. *)
Definition initialBars : list R := replicate 32 5.

(** The analysis as the specification words it: the root mean square of
    the centred, normalised samples of a segment, scaled and clamped. *)
Definition centred (s : Z) : R := (IZR s - 128) / 128.

Definition sumOfSquares (xs : list R) : R :=
  fold_right (fun x acc => x * x + acc) 0 xs.

Definition rootMeanSquare (xs : list R) : R :=
  sqrt (sumOfSquares xs / INR (length xs)).

Definition clamp (lo hi x : R) : R := Rmax lo (Rmin hi x).

(** The [i]-th contiguous segment of length [floor (256 / 32)]. *)
Definition segmentOf (W : list Z) (i : nat) : list Z :=
  take (FFT_SIZE / NUM_BARS) (drop (i * (FFT_SIZE / NUM_BARS)) W).

Definition barSpec (W : list Z) (i : nat) : R :=
  clamp 5 95 (400 * rootMeanSquare (centred <$> segmentOf W i)).

(** A sample window: [fftSize] bytes. *)
Definition isWindow (W : list Z) : Prop :=
  length W = FFT_SIZE /\ Forall (fun s => (0 <= s < 256)%Z) W.

Definition silence : list Z := replicate FFT_SIZE 128%Z.

Local Close Scope R_scope.

(** ** The life cycle of an analyser effect

    The effect instance, with the variables its closures share and the
    part of the browser they touch: the animation-frame requests that
    are registered and not yet run or cancelled.  [setBarsCalls] counts
    the calls of [setMicBars] / [setBotBars]. *)

Inductive ContextState : Type := CtxOpen | CtxClosed.

Record Analyser : Type := mkAnalyser {
  animationId : option nat;
  audioContext : option ContextState;
  streamPending : bool;
  bars : list R;
  setBarsCalls : nat;
  frameRequests : list nat;
  nextFrameId : nat
}.

(** What the event loop can run for an effect instance: the promise of
    [getUserMedia] settles, an animation frame comes (the analyser then
    holding [samples]), React runs the clean-up of the effect. *)
Inductive LoopEvent : Type :=
| StreamGranted (samples : list Z)
| StreamDenied
| AnimationFrame (samples : list Z)
| Cleanup.

(** [animate()]: compute and set the bars, request the next frame.
    [requestAnimationFrame] returns a fresh non-zero handle. *)
Definition animate (samples : list Z) (a : Analyser) : Analyser :=
  {| animationId := Some (nextFrameId a);
     audioContext := audioContext a;
     streamPending := streamPending a;
     bars := computeBars samples;
     setBarsCalls := S (setBarsCalls a);
     frameRequests := frameRequests a ++ [nextFrameId a];
     nextFrameId := S (nextFrameId a) |}.

(** [if (animationId) cancelAnimationFrame(animationId)] *)
Definition cancelIfSet (a : Analyser) : Analyser :=
  match animationId a with
  | Some id =>
      if negb (id =? 0)%nat then
        {| animationId := animationId a;
           audioContext := audioContext a;
           streamPending := streamPending a;
           bars := bars a;
           setBarsCalls := setBarsCalls a;
           frameRequests := List.filter (fun r => negb (r =? id)%nat) (frameRequests a);
           nextFrameId := nextFrameId a |}
      else a
  | None => a
  end.

(** [audioContext.close()], guarded by [if (audioContext)] in the
    microphone effect. *)
Definition closeContext (a : Analyser) : Analyser :=
  {| animationId := animationId a;
     audioContext :=
       match audioContext a with Some _ => Some CtxClosed | None => None end;
     streamPending := streamPending a;
     bars := bars a;
     setBarsCalls := setBarsCalls a;
     frameRequests := frameRequests a;
     nextFrameId := nextFrameId a |}.

(** The browser runs the callbacks registered for this frame; each is
    [animate] and registers the next one. *)
Definition runFrame (samples : list Z) (a : Analyser) : Analyser :=
  fold_left (fun a' _ => animate samples a')
    (frameRequests a)
    {| animationId := animationId a;
       audioContext := audioContext a;
       streamPending := streamPending a;
       bars := bars a;
       setBarsCalls := setBarsCalls a;
       frameRequests := [];
       nextFrameId := nextFrameId a |}.

(** The microphone effect once it has run with [transportState] ready:
    [getUserMedia] is pending, nothing else exists yet. *)
Definition micMounted : Analyser :=
  {| animationId := None;
     audioContext := None;
     streamPending := true;
     bars := initialBars;
     setBarsCalls := 0;
     frameRequests := [];
     nextFrameId := 1 |}.

Definition micStep (a : Analyser) (e : LoopEvent) : Analyser :=
  match e with
  | StreamGranted samples =>
      if streamPending a then
        animate samples
          {| animationId := animationId a;
             audioContext := Some CtxOpen;
             streamPending := false;
             bars := bars a;
             setBarsCalls := setBarsCalls a;
             frameRequests := frameRequests a;
             nextFrameId := nextFrameId a |}
      else a
  | StreamDenied =>
      {| animationId := animationId a;
         audioContext := audioContext a;
         streamPending := false;
         bars := bars a;
         setBarsCalls := setBarsCalls a;
         frameRequests := frameRequests a;
         nextFrameId := nextFrameId a |}
  | AnimationFrame samples => runFrame samples a
  | Cleanup => closeContext (cancelIfSet a)
  end.

(** The bot effect once it has run with a track: the context exists and
    [animate()] has been called once, synchronously. *)
Definition botMounted (samples : list Z) : Analyser :=
  animate samples
    {| animationId := None;
       audioContext := Some CtxOpen;
       streamPending := false;
       bars := initialBars;
       setBarsCalls := 0;
       frameRequests := [];
       nextFrameId := 1 |}.

Definition botStep (a : Analyser) (e : LoopEvent) : Analyser :=
  match e with
  | StreamGranted _ | StreamDenied => a
  | AnimationFrame samples => runFrame samples a
  | Cleanup => closeContext (cancelIfSet a)
  end.

(** At most one animation-frame request is registered, and it is the
    one [animationId] names. *)
Definition oneLoop (a : Analyser) : Prop :=
  nextFrameId a <> 0%nat /\
  (frameRequests a = [] \/
   exists id, id <> 0%nat /\ animationId a = Some id /\ frameRequests a = [id]).

(** While the stream is pending the loop has not started. *)
Definition micInvariant (a : Analyser) : Prop :=
  oneLoop a /\ (streamPending a = true -> frameRequests a = []).

(** ** [handleConnect] of App.tsx *)

(** The transport client ([client] of [PipecatAppBase]) belongs to the
    client library, not to the repository; [handleConnect] takes it as a
    parameter.  A client has a state and two asynchronous operations; an
    operation returns the client it leaves behind and whether its promise
    resolved ([true]) or rejected. *)
Record Client (T : Type) : Type := mkClient {
  clientState : T -> TransportState;
  disconnect : T -> T * bool;
  startBotAndConnect : T -> T * bool
}.
Arguments clientState {T} _ _.
Arguments disconnect {T} _ _.
Arguments startBotAndConnect {T} _ _.

Inductive ConnectAction : Type :=
| CalledDisconnect
| WarnedDisconnectFailed (message : string)
| Waited (ms : nat)
| CalledStartBotAndConnect.

Record ConnectState (T : Type) : Type := mkConnectState {
  transport : T;
  store : AppState;
  actions : list ConnectAction
}.
Arguments transport {T} _.
Arguments store {T} _.
Arguments actions {T} _.
Arguments mkConnectState {T} _ _ _.

(** An async block: it runs on the state and either completes or throws. *)
Inductive Completion : Type := Completed | Threw.

Definition Task (T : Type) : Type := ConnectState T -> ConnectState T * Completion.

Definition andThen {T} (f g : Task T) : Task T :=
  fun s =>
    match f s with
    | (s', Completed) => g s'
    | (s', Threw) => (s', Threw)
    end.

Definition tryCatch {T} (body handler : Task T) : Task T :=
  fun s =>
    match body s with
    | (s', Completed) => (s', Completed)
    | (s', Threw) => handler s'
    end.

Definition skip {T} : Task T := fun s => (s, Completed).

Definition when {T} (cond : ConnectState T -> bool) (f : Task T) : Task T :=
  fun s => if cond s then f s else (s, Completed).

Definition record {T} (a : ConnectAction) : Task T :=
  fun s => (mkConnectState (transport s) (store s) (actions s ++ [a]), Completed).

Notation "f >>> g" := (andThen f g) (at level 62, right associativity).

(** [await client.disconnect()] *)
Definition awaitDisconnect {T} (c : Client T) : Task T :=
  fun s =>
    let '(t', ok) := disconnect c (transport s) in
    (mkConnectState t' (store s) (actions s ++ [CalledDisconnect]),
     if ok then Completed else Threw).

(** [await client.startBotAndConnect({...})] *)
Definition awaitStartBotAndConnect {T} (c : Client T) : Task T :=
  fun s =>
    let '(t', ok) := startBotAndConnect c (transport s) in
    (mkConnectState t' (store s) (actions s ++ [CalledStartBotAndConnect]),
     if ok then Completed else Threw).

Definition clearTranscripts {T} : Task T :=
  fun s =>
    (mkConnectState (transport s)
       (setTranscripts {| user := ""; bot := "" |} (store s)) (actions s),
     Completed).

Definition stateIs {T} (c : Client T) (st : TransportState) (s : ConnectState T)
  : bool :=
  TransportState_eqb (clientState c (transport s)) st.

(** The [try] block of [handleConnect]. *)
Definition connectAttempt {T} (c : Client T) : Task T :=
  when (fun s => negb (stateIs c disconnected s))
    (tryCatch (awaitDisconnect c)
       (record (WarnedDisconnectFailed "Disconnect failed during reconnect:")) >>>
     record (Waited 500)) >>>
  clearTranscripts >>>
  awaitStartBotAndConnect c.

(** Its [catch] block. *)
Definition recoverFromFailure {T} (c : Client T) : Task T :=
  when (fun s => stateIs c ready s || stateIs c connecting s)
    (tryCatch (awaitDisconnect c)
       (record (WarnedDisconnectFailed "Disconnect failed during error recovery:"))).

Definition handleConnect {T} (c : Client T) : Task T :=
  tryCatch (connectAttempt c) (recoverFromFailure c).

(** A client for examples: its state, and the scripted results of its
    coming [startBotAndConnect] calls as the state each leaves and
    whether it resolved.  Its [disconnect] always succeeds. *)
Definition ScriptedClient : Type := TransportState * list (TransportState * bool).

Definition scriptedClient : Client ScriptedClient :=
  {| clientState := fun t => fst t;
     disconnect := fun t => ((disconnected, snd t), true);
     startBotAndConnect := fun t =>
       match snd t with
       | (st, ok) :: rest => ((st, rest), ok)
       | [] => ((ready, []), true)
       end |}.

(** ** Views of the store used by the statements *)

(** The handler takes the message for a state update. *)
Definition isStateUpdate (message : JsVal) : bool :=
  js_is_str (js_get (message_data message) "type") "conversation_state_update".

(** A payload field as the specification words it: the field, or the
    default when it is missing or otherwise falsy. *)
Definition payloadField (data : JsVal) (name : string) (default : JsVal) : JsVal :=
  match js_get data name with
  | JUndefined | JNull | JBool false => default
  | JNum n => if (n =? 0)%Z then default else JNum n
  | JStr s => if String.eqb s "" then default else JStr s
  | v => v
  end.

(** The topic identifiers an array holds. *)
Definition js_strings (v : JsVal) : list string :=
  match v with
  | JArr items =>
      omap (fun x => match x with JStr s => Some s | _ => None end) items
  | _ => []
  end.

(** The keys of a mapping. *)
Definition js_keys (v : JsVal) : list string :=
  match v with
  | JObj fields => fields.*1
  | _ => []
  end.

Definition allTopics (cs : CourseState) : gset string :=
  list_to_set (js_strings (all_topics cs)).

Definition discussedTopics (cs : CourseState) : gset string :=
  list_to_set (js_strings (discussed_topics cs)).

Definition responseKeys (cs : CourseState) : gset string :=
  list_to_set (js_keys (responses cs)).

Definition topicsConsistent (cs : CourseState) : Prop :=
  discussedTopics cs ⊆ allTopics cs /\ responseKeys cs ⊆ allTopics cs.

(** The same inclusions on a payload, a missing field holding nothing. *)
Definition payloadConsistent (data : JsVal) : Prop :=
  let all : gset string := list_to_set (js_strings (js_get data "all_topics")) in
  let discussed : gset string :=
    list_to_set (js_strings (js_get data "discussed_topics")) in
  let keys : gset string := list_to_set (js_keys (js_get data "responses")) in
  discussed ⊆ all /\ keys ⊆ all.

(** The text of a transcript payload is empty or absent. *)
Definition textEmptyOrAbsent (data : option TranscriptData) : Prop :=
  match data with
  | Some d => text d = None \/ text d = Some ""
  | None => True
  end.

(** ** Views of the layout used by the statements *)

(** The dependency values of a render with props [p] of the state [l]. *)
Definition depsOf (p : Props) (l : Layout) : Deps :=
  {| dep_isUserSpeaking := p_isUserSpeaking p;
     dep_historyId := historyId l;
     dep_conversationState := conversationState l;
     dep_user := user (p_transcripts p);
     dep_bot := bot (p_transcripts p);
     dep_transportState := p_transportState p |}.

(** The last render saw exactly the present props and state: no effect
    is due. *)
Definition stable (p : Props) (l : Layout) : Prop :=
  rendered l = Some (depsOf p l).

(** The latest entry of the history is the agent's. *)
Definition lastIsBot (h : list TranscriptMessage) : bool :=
  match last h with
  | Some m => Speaker_eqb (speaker m) SpBot
  | None => false
  end.

(** The thinking indicator is not left standing on an agent entry. *)
Definition quiet (l : Layout) : Prop :=
  conversationState l = thinking -> lastIsBot (transcriptHistory l) = false.

(** The effects that depend on props, as they run when the props go from
    [p0] to [p]. *)
Definition propEffects (now : nat) (p0 p : Props) (l : Layout) : Layout :=
  let l1 :=
    if Bool.eqb (p_isUserSpeaking p0) (p_isUserSpeaking p) then l
    else speakingEdgeEffect p l in
  let l3 :=
    if String.eqb (user (p_transcripts p0)) (user (p_transcripts p))
       && Bool.eqb (p_isUserSpeaking p0) (p_isUserSpeaking p) then l1
    else userHistoryEffect now p l1 in
  let l4 :=
    if String.eqb (bot (p_transcripts p0)) (bot (p_transcripts p)) then l3
    else botHistoryEffect now p l3 in
  if TransportState_eqb (p_transportState p0) (p_transportState p) then l4
  else resetOnReadyEffect p l4.

(** Effect 2 run on the state it is queued on. *)
Definition quiesce (l : Layout) : Layout :=
  clearThinkingEffect (transcriptHistory l) (conversationState l) l.

Definition finish (p : Props) (l : Layout) : Layout :=
  setRendered (depsOf p l) l.

Definition sameView (l0 l : Layout) : bool :=
  (historyId l0 =? historyId l)%nat
  && ConversationMode_eqb (conversationState l0) (conversationState l).

(** The texts one speaker has in the history, in order. *)
Definition textsOf (sp : Speaker) (h : list TranscriptMessage) : list string :=
  msg_text <$> List.filter (fun m => Speaker_eqb (speaker m) sp) h.

(** No two neighbours of a list of texts are equal. *)
Fixpoint noRepeat (ts : list string) : bool :=
  match ts with
  | a :: (b :: _) as rest => negb (String.eqb a b) && noRepeat rest
  | _ => true
  end.

(** No speaker has two consecutive entries with the same text. *)
Definition deduplicated (h : list TranscriptMessage) : bool :=
  noRepeat (textsOf SpUser h) && noRepeat (textsOf SpBot h).

(** No two neighbours of the history have the same speaker and text. *)
Fixpoint noAdjacentDuplicate (h : list TranscriptMessage) : bool :=
  match h with
  | a :: (b :: _) as rest =>
      negb (Speaker_eqb (speaker a) (speaker b)
            && String.eqb (msg_text a) (msg_text b))
      && noAdjacentDuplicate rest
  | _ => true
  end.

(** The pending safety timeout agrees with the speaking flag. *)
Definition timeoutConsistent (w : World) : Prop :=
  match safetyTimeout w with
  | Some deadline =>
      isUserSpeaking (app w) = true
      /\ (now w < deadline)%nat /\ (deadline <= now w + SAFETY_TIMEOUT_MS)%nat
  | None => isUserSpeaking (app w) = false
  end.

(** What holds of the application between two events. *)
Definition consistent (w : World) : Prop :=
  stable (propsOf w) (layout w)
  /\ quiet (layout w)
  /\ prevIsUserSpeaking (layout w) = isUserSpeaking (app w)
  /\ timeoutDep w = Some (isUserSpeaking (app w))
  /\ timeoutConsistent w.

(** A payload with a text; [final] absent counts as final. *)
Definition finalTranscript (s : string) : option TranscriptData :=
  Some {| text := Some s; final := Some true |}.

Definition partialTranscript (s : string) : option TranscriptData :=
  Some {| text := Some s; final := Some false |}.

Definition transcriptText (s : string) : option TranscriptData :=
  Some {| text := Some s; final := None |}.

(** The edges of user speaking between two worlds. *)
Definition risingEdge (w w' : World) : bool :=
  negb (userSpeaking w) && userSpeaking w'.

Definition fallingEdge (w w' : World) : bool :=
  userSpeaking w && negb (userSpeaking w').

(** Events that end the user's turn in the store: a final transcript with
    a text, and the two connection callbacks. *)
Definition finalizes (e : Event) : bool :=
  match e with
  | UserTranscript data =>
      match data_text data with
      | Some _ => data_isFinal data
      | None => false
      end
  | Connected | Disconnected => true
  | _ => false
  end.

(** The time a run of events takes. *)
Definition elapsed (es : list Event) : nat :=
  fold_right (fun e t => match e with Elapse ms => ms + t | _ => t end)%nat 0%nat es.

(** The latest partial text of a run of events, [start] if it has none. *)
Definition lastPartialText (start : string) (es : list Event) : string :=
  fold_left
    (fun t e =>
       match e with
       | UserTranscript data =>
           match data_text data with
           | Some s => if data_isFinal data then t else s
           | None => t
           end
       | _ => t
       end)
    es start.

(** From [l] to [l'] the history array was replaced or left alone: its
    identity changes whenever a new array is set. *)
Definition historyStep (l l' : Layout) : Prop :=
  (historyId l <= historyId l')%nat
  /\ (historyId l' = historyId l -> transcriptHistory l' = transcriptHistory l).

(** The mode the speaking edge between [w] and [w'] asks for. *)
Definition edgeMode (w w' : World) : ConversationMode :=
  if risingEdge w w' then listening
  else if fallingEdge w w' then thinking
  else mode w.

(** Thinking gives way to idle on a history that ends with the agent. *)
Definition settleMode (m : ConversationMode) (h : list TranscriptMessage)
  : ConversationMode :=
  if ConversationMode_eqb m thinking && lastIsBot h then idle else m.

(** The speaker and text of each entry, without the time stamps. *)
Definition entries (h : list TranscriptMessage) : list (Speaker * string) :=
  (fun m => (speaker m, msg_text m)) <$> h.

(** The callbacks of [clientOptions]: the handler an event runs. *)
Definition dispatch (a : AppState) (e : Event) : AppState :=
  match e with
  | ServerMessage message => handleServerMessage a message
  | UserTranscript data => handleUserTranscript a data
  | BotTtsText data => handleBotTtsText a data
  | BotStartedSpeaking => handleBotStartedSpeaking a
  | BotStoppedSpeaking => handleBotStoppedSpeaking a
  | UserStartedSpeaking => handleUserStartedSpeaking a
  | Connected => handleConnected a
  | Disconnected => handleDisconnected a
  | TransportStateChange _ | Elapse _ => a
  end.

Definition isElapse (e : Event) : bool :=
  match e with Elapse _ => true | _ => false end.

Definition keepsTurn (e : Event) : bool := negb (finalizes e).

(** ** Further views used by the statements *)

(** The latest state update among the messages. *)
Definition lastStateUpdate (messages : list JsVal) : option JsVal :=
  last (List.filter isStateUpdate messages).

(** Every entry has a text that is not blank. *)
Definition noBlankEntry (h : list TranscriptMessage) : Prop :=
  Forall (fun m => trim_nonempty (msg_text m) = true) h.

(** The transcript the store holds for a speaker. *)
Definition transcriptOf (sp : Speaker) (a : AppState) : string :=
  match sp with
  | SpUser => user (transcripts a)
  | SpBot => bot (transcripts a)
  end.

Definition isDisconnectCall (a : ConnectAction) : bool :=
  match a with CalledDisconnect => true | _ => false end.

Definition isStartCall (a : ConnectAction) : bool :=
  match a with CalledStartBotAndConnect => true | _ => false end.

Definition countActions (p : ConnectAction -> bool) (l : list ConnectAction) : nat :=
  length (List.filter p l).

(** The actions of the [try] block before it calls
    [startBotAndConnect], from the client [t]. *)
Definition reconnectPrelude {T} (c : Client T) (t : T) : list ConnectAction :=
  if TransportState_eqb (clientState c t) disconnected then []
  else
    CalledDisconnect ::
      (if snd (disconnect c t) then []
       else [WarnedDisconnectFailed "Disconnect failed during reconnect:"])
      ++ [Waited 500].

(** An energy frame: 32 values within [5, 95]. *)
Definition energyFrame (bs : list R) : Prop :=
  length bs = NUM_BARS /\ Forall (fun b => (5 <= b <= 95)%R) bs.

(** The samples an event hands to the analysis form a window. *)
Definition windowEvent (e : LoopEvent) : Prop :=
  match e with
  | StreamGranted samples | AnimationFrame samples => isWindow samples
  | StreamDenied | Cleanup => True
  end.

(** The streaming text is empty or the text the ref holds, and it is
    empty whenever the speaking flag is clear. *)
Definition streamingShape (a : AppState) : Prop :=
  (isUserSpeaking a = false -> streamingUserText a = "")
  /\ (streamingUserText a = "" \/ streamingUserText a = streamingUserTextRef a).

(** The event takes the channel into the ready state. *)
Definition entersReady (w : World) (e : Event) : bool :=
  match e with
  | TransportStateChange ready => negb (TransportState_eqb (transportState w) ready)
  | _ => false
  end.

(** The history is as it was, or has one more entry at its end: a
    non-blank text, the transcript the store holds for its speaker. *)
Definition grewByAtMostOne (w w' : World) : Prop :=
  history w' = history w
  \/ exists m,
       history w' = history w ++ [m]
       /\ trim_nonempty (msg_text m) = true
       /\ msg_text m = transcriptOf (speaker m) (app w').

(** The client on which [startBotAndConnect] is called: the one the
    orderly disconnect left, if there was one. *)
Definition transportBeforeStart {T} (c : Client T) (t : T) : T :=
  if TransportState_eqb (clientState c t) disconnected then t
  else fst (disconnect c t).

(** The actions of the [catch] block, from the client [t] the failed
    attempt left. *)
Definition recoveryActions {T} (c : Client T) (t : T) : list ConnectAction :=
  if TransportState_eqb (clientState c t) ready
     || TransportState_eqb (clientState c t) connecting
  then
    CalledDisconnect ::
      (if snd (disconnect c t) then []
       else [WarnedDisconnectFailed "Disconnect failed during error recovery:"])
  else [].

(** The analysis loop of an effect instance has ended for good: no frame
    is requested and no stream can arrive any more. *)
Definition loopEnded (a : Analyser) : Prop :=
  frameRequests a = [] /\ streamPending a = false.


(** The energy of a segment: the sum of the squared distances of its
    bytes from the centre 128. *)
Definition energy (segment : list Z) : Z :=
  fold_right (fun s acc => (s - 128) * (s - 128) + acc)%Z 0%Z segment.

(** * Proofs *)

(** ** The store: state updates *)

Lemma js_or_payloadField (data : JsVal) (name : string) (default : JsVal) :
  js_or (js_get data name) default = payloadField data name default.
Proof.
  unfold js_or, payloadField.
  destruct (js_get data name) as [ | | [] | n | s | | ]; simpl; try reflexivity.
  - destruct (n =? 0)%Z; reflexivity.
  - destruct (String.eqb s ""); reflexivity.
Qed.

Lemma js_strings_or_empty (v : JsVal) :
  js_strings (js_or v (JArr [])) = js_strings v.
Proof.
  unfold js_or. destruct v as [ | | [] | n | s | | ]; simpl; try reflexivity.
  - destruct (n =? 0)%Z; reflexivity.
  - destruct (String.eqb s ""); reflexivity.
Qed.

Lemma js_keys_or_empty (v : JsVal) :
  js_keys (js_or v (JObj [])) = js_keys v.
Proof.
  unfold js_or. destruct v as [ | | [] | n | s | | ]; simpl; try reflexivity.
  - destruct (n =? 0)%Z; reflexivity.
  - destruct (String.eqb s ""); reflexivity.
Qed.

Lemma handleServerMessage_update (a : AppState) (message : JsVal) :
  isStateUpdate message = true ->
  handleServerMessage a message =
  setCourseState
    {| all_topics := payloadField (message_data message) "all_topics" (JArr []);
       discussed_topics :=
         payloadField (message_data message) "discussed_topics" (JArr []);
       responses := payloadField (message_data message) "responses" (JObj []);
       remaining_topics :=
         payloadField (message_data message) "remaining_topics" (JArr []);
       current_topics :=
         payloadField (message_data message) "current_topics" (JArr []);
       current_node :=
         payloadField (message_data message) "current_node" (JStr "initial");
       progress := payloadField (message_data message) "progress" (JStr "0/3") |}
    a.
Proof.
  unfold isStateUpdate, handleServerMessage. intros ->.
  rewrite !js_or_payloadField. reflexivity.
Qed.

Lemma handleServerMessage_other (a : AppState) (message : JsVal) :
  isStateUpdate message = false -> handleServerMessage a message = a.
Proof. unfold isStateUpdate, handleServerMessage. intros ->. reflexivity. Qed.

Lemma topicsConsistent_update (a : AppState) (message : JsVal) :
  isStateUpdate message = true ->
  topicsConsistent (courseState (handleServerMessage a message)) <->
  payloadConsistent (message_data message).
Proof.
  unfold isStateUpdate, handleServerMessage. intros ->.
  unfold topicsConsistent, payloadConsistent, discussedTopics, allTopics,
    responseKeys. simpl.
  rewrite !js_strings_or_empty, js_keys_or_empty. reflexivity.
Qed.

(** C6, as stated, fails: a state update without [progress] leaves
    ["0/3"] in the store, not the empty string. *)
Lemma state_update_progress_default_is_not_empty :
  let message := JObj [("type", JStr "conversation_state_update")] in
  isStateUpdate message = true /\
  js_get (message_data message) "progress" = JUndefined /\
  progress (courseState (handleServerMessage initialApp message)) = JStr "0/3" /\
  progress (courseState (handleServerMessage initialApp message)) <> JStr "".
Proof. repeat split; try reflexivity. discriminate. Qed.

(** C6, amended: a state update replaces the whole conversation state by
    the payload, whatever the state was; every missing (or null, false,
    zero, empty-string) field takes its default: the empty array for the
    four topic lists, the empty object for [responses], ["initial"] for
    [current_node] and ["0/3"] for [progress]; every other field value is
    copied as it is; the rest of the store is untouched. *)
Theorem state_update_replaces_with_defaults (a : AppState) (message : JsVal) :
  isStateUpdate message = true ->
  let data := message_data message in
  let a' := handleServerMessage a message in
  courseState a' =
    {| all_topics := payloadField data "all_topics" (JArr []);
       discussed_topics := payloadField data "discussed_topics" (JArr []);
       responses := payloadField data "responses" (JObj []);
       remaining_topics := payloadField data "remaining_topics" (JArr []);
       current_topics := payloadField data "current_topics" (JArr []);
       current_node := payloadField data "current_node" (JStr "initial");
       progress := payloadField data "progress" (JStr "0/3") |}
  /\ (forall name default,
        truthy (js_get data name) = false ->
        payloadField data name default = default)
  /\ (forall name default,
        truthy (js_get data name) = true ->
        payloadField data name default = js_get data name)
  /\ (forall b, courseState (handleServerMessage b message) = courseState a')
  /\ transcripts a' = transcripts a
  /\ isBotSpeaking a' = isBotSpeaking a
  /\ streamingUserText a' = streamingUserText a
  /\ isUserSpeaking a' = isUserSpeaking a
  /\ streamingUserTextRef a' = streamingUserTextRef a.
Proof.
  intros Hup data a'. subst a'.
  rewrite (handleServerMessage_update a message Hup). fold data.
  repeat split.
  - intros name default Hf. rewrite <- js_or_payloadField.
    unfold js_or. rewrite Hf. reflexivity.
  - intros name default Ht. rewrite <- js_or_payloadField.
    unfold js_or. rewrite Ht. reflexivity.
  - intros b. rewrite (handleServerMessage_update b message Hup). reflexivity.
Qed.

Lemma state_update_replaces_with_defaults_witness :
  let message :=
    JObj [("data", JObj [("type", JStr "conversation_state_update");
                         ("all_topics", JArr [JStr "ai"; JStr "speech"]);
                         ("current_node", JStr "")])] in
  isStateUpdate message = true /\
  courseState (handleServerMessage initialApp message) =
    {| all_topics := JArr [JStr "ai"; JStr "speech"];
       discussed_topics := JArr [];
       responses := JObj [];
       remaining_topics := JArr [];
       current_topics := JArr [];
       current_node := JStr "initial";
       progress := JStr "0/3" |}.
Proof.
  intros message. split; [reflexivity|].
  exact (proj1 (state_update_replaces_with_defaults initialApp message eq_refl)).
Defined.

(** C4, as stated, fails: the handler copies the payload and checks
    nothing, so a payload that lists a discussed topic outside
    [all_topics] puts it in the store. *)
Lemma state_update_can_break_topic_inclusion :
  let message :=
    JObj [("type", JStr "conversation_state_update");
          ("all_topics", JArr [JStr "ai"]);
          ("discussed_topics", JArr [JStr "speech"])] in
  isStateUpdate message = true /\
  ~ topicsConsistent (courseState (handleServerMessage initialApp message)).
Proof.
  intros message. split; [reflexivity|].
  intros [H _]. unfold discussedTopics, allTopics in H. simpl in H.
  set_solver.
Qed.

(** C4, amended: after a state update the topic sets of the store are
    the payload's (a missing field counting as empty), so the two
    inclusions hold after the event exactly when they hold in its
    payload; along every sequence of messages whose state-update
    payloads satisfy them, they hold after each event. *)
Theorem topics_consistent_when_payloads_are (a : AppState) (messages : list JsVal) :
  topicsConsistent (courseState a) ->
  Forall (fun m => isStateUpdate m = true -> payloadConsistent (message_data m))
    messages ->
  (forall n,
     topicsConsistent
       (courseState (fold_left handleServerMessage (take n messages) a)))
  /\ (forall b m, isStateUpdate m = true ->
        topicsConsistent (courseState (handleServerMessage b m)) <->
        payloadConsistent (message_data m)).
Proof.
  intros Ha Hall. split; [|intros b m; apply topicsConsistent_update].
  intros n. revert a Ha n.
  induction Hall as [|m ms Hm _ IH]; intros a Ha n.
  - rewrite take_nil. exact Ha.
  - destruct n as [|n]; [exact Ha|]. simpl. apply IH.
    destruct (isStateUpdate m) eqn:E.
    + apply topicsConsistent_update; auto.
    + rewrite handleServerMessage_other by exact E. exact Ha.
Qed.

Lemma topics_consistent_when_payloads_are_witness :
  let m1 := JObj [("type", JStr "conversation_state_update");
                  ("all_topics", JArr [JStr "ai"; JStr "speech"])] in
  let m2 := JObj [("type", JStr "conversation_state_update");
                  ("all_topics", JArr [JStr "ai"; JStr "speech"]);
                  ("discussed_topics", JArr [JStr "ai"]);
                  ("responses", JObj [("ai", JObj [("interested", JBool true)])])] in
  topicsConsistent (courseState (fold_left handleServerMessage [m1; m2] initialApp)).
Proof.
  intros m1 m2.
  refine (proj1 (topics_consistent_when_payloads_are initialApp [m1; m2] _ _) 2%nat).
  - unfold topicsConsistent, discussedTopics, allTopics, responseKeys. simpl.
    split; set_solver.
  - constructor; [|constructor; [|constructor]];
      intros _; unfold payloadConsistent; simpl; split; set_solver.
Defined.

(** ** The store: user transcripts *)

Lemma data_text_empty (data : option TranscriptData) :
  textEmptyOrAbsent data -> data_text data = None.
Proof.
  destruct data as [d|]; simpl; [|reflexivity].
  intros [-> | ->]; reflexivity.
Qed.


(** ** Connecting *)

Section Connect.
Context {T : Type} (c : Client T).

Lemma recoverFromFailure_completes (s : ConnectState T) :
  snd (recoverFromFailure c s) = Completed.
Proof.
  unfold recoverFromFailure, when, tryCatch, awaitDisconnect, record.
  destruct (stateIs c ready s || stateIs c connecting s); [|reflexivity].
  destruct (disconnect c (transport s)) as [t' []]; reflexivity.
Qed.

Lemma handleConnect_completes (s : ConnectState T) :
  snd (handleConnect c s) = Completed.
Proof.
  unfold handleConnect, tryCatch.
  destruct (connectAttempt c s) as [s1 []]; [reflexivity|].
  apply recoverFromFailure_completes.
Qed.

Lemma handleConnect_after_failure (s s1 : ConnectState T) :
  connectAttempt c s = (s1, Threw) ->
  handleConnect c s = recoverFromFailure c s1.
Proof. unfold handleConnect, tryCatch. intros ->. reflexivity. Qed.

Lemma stateIs_true (st : TransportState) (s : ConnectState T) :
  clientState c (transport s) = st -> stateIs c st s = true.
Proof. unfold stateIs. intros ->. destruct st; reflexivity. Qed.

(** C7, amended: when the connect attempt fails and leaves the
    transport ready or connecting, [handleConnect] calls [disconnect]
    once more, logging a warning and nothing else if that call fails
    too, and then completes normally: the failure is swallowed, not
    passed to the caller.  When the forced disconnect succeeds, and a
    successful disconnect leaves the client disconnected, that is the
    state at the end. *)
Theorem connect_failure_forces_disconnect (s s1 : ConnectState T) :
  connectAttempt c s = (s1, Threw) ->
  clientState c (transport s1) = ready \/
  clientState c (transport s1) = connecting ->
  let final := fst (handleConnect c s) in
  let forced := disconnect c (transport s1) in
  snd (handleConnect c s) = Completed
  /\ transport final = fst forced
  /\ actions final =
       actions s1 ++ CalledDisconnect ::
         (if snd forced then []
          else [WarnedDisconnectFailed "Disconnect failed during error recovery:"])
  /\ store final = store s1
  /\ (snd forced = true ->
      (forall t, snd (disconnect c t) = true ->
                 clientState c (fst (disconnect c t)) = disconnected) ->
      clientState c (transport final) = disconnected).
Proof.
  intros Hfail Hst final forced. subst final forced.
  rewrite (handleConnect_after_failure s s1 Hfail).
  assert (Hc : stateIs c ready s1 || stateIs c connecting s1 = true).
  { destruct Hst as [H|H]; rewrite (stateIs_true _ _ H);
      [reflexivity | apply orb_true_r]. }
  unfold recoverFromFailure, when. rewrite Hc.
  unfold tryCatch, awaitDisconnect, record.
  destruct (disconnect c (transport s1)) as [t' ok] eqn:Hd.
  destruct ok; simpl.
  - repeat split; try reflexivity.
    intros _ Hok. specialize (Hok (transport s1)). rewrite Hd in Hok.
    apply Hok. reflexivity.
  - repeat split; try reflexivity.
    + rewrite <- app_assoc. reflexivity.
    + discriminate.
Qed.
End Connect.

(** C7, as stated, fails: the attempt below fails with the transport
    left connecting; [handleConnect] forces the disconnect and the state
    settles to disconnected, but it completes like a successful call:
    nothing is thrown to the caller and nothing about the failure is
    recorded. *)
Lemma connect_failure_is_not_surfaced :
  let c := scriptedClient in
  let s := mkConnectState (disconnected, [(connecting, false)]) initialApp [] in
  snd (connectAttempt c s) = Threw /\
  clientState c (transport (fst (connectAttempt c s))) = connecting /\
  clientState c (transport (fst (handleConnect c s))) = disconnected /\
  actions (fst (handleConnect c s)) = [CalledStartBotAndConnect; CalledDisconnect] /\
  snd (handleConnect c s) = Completed /\
  snd (handleConnect c s) <> Threw.
Proof. repeat split; try reflexivity. discriminate. Qed.

Lemma connect_failure_forces_disconnect_witness :
  let c := scriptedClient in
  let s := mkConnectState (ready, [(connecting, false)]) initialApp [] in
  snd (handleConnect c s) = Completed /\
  clientState c (transport (fst (handleConnect c s))) = disconnected.
Proof.
  intros c s.
  pose proof (connect_failure_forces_disconnect c s
                (mkConnectState (connecting, []) (store s)
                   [CalledDisconnect; Waited 500; CalledStartBotAndConnect])
                eq_refl (or_intror eq_refl)) as H.
  simpl in H. destruct H as (Hc & _ & _ & _ & Hd).
  split; [exact Hc|]. apply Hd; [reflexivity|]. intros t _. reflexivity.
Defined.

(** ** The analyser life cycle *)

Lemma runFrame_idle (samples : list Z) (a : Analyser) :
  frameRequests a = [] -> runFrame samples a = a.
Proof. destruct a; simpl. intros ->. reflexivity. Qed.

Lemma oneLoop_animate (samples : list Z) (a : Analyser) :
  nextFrameId a <> 0%nat -> frameRequests a = [] -> oneLoop (animate samples a).
Proof.
  intros Hn Hf. split; simpl; [lia|]. right. exists (nextFrameId a).
  rewrite Hf. auto.
Qed.

Lemma oneLoop_runFrame (samples : list Z) (a : Analyser) :
  oneLoop a -> oneLoop (runFrame samples a).
Proof.
  intros [Hn [Hf | (id & Hid & Ha & Hf)]].
  - rewrite runFrame_idle by exact Hf. split; auto.
  - unfold runFrame. rewrite Hf. simpl. apply oneLoop_animate; auto.
Qed.

Lemma cleanup_cancels (a : Analyser) :
  oneLoop a -> frameRequests (closeContext (cancelIfSet a)) = [].
Proof.
  intros [Hn [Hf | (id & Hid & Ha & Hf)]]; unfold cancelIfSet; simpl.
  - destruct (animationId a) as [id|]; [|exact Hf].
    destruct (negb (id =? 0)%nat); simpl; [|exact Hf]. rewrite Hf. reflexivity.
  - rewrite Ha. destruct (Nat.eqb_spec id 0) as [|_]; [contradiction|]. simpl.
    rewrite Hf. simpl. rewrite Nat.eqb_refl. reflexivity.
Qed.

Lemma cleanup_keeps_bars (a : Analyser) :
  setBarsCalls (closeContext (cancelIfSet a)) = setBarsCalls a
  /\ bars (closeContext (cancelIfSet a)) = bars a
  /\ streamPending (closeContext (cancelIfSet a)) = streamPending a
  /\ nextFrameId (closeContext (cancelIfSet a)) = nextFrameId a.
Proof.
  unfold cancelIfSet. destruct (animationId a) as [id|]; simpl; auto.
  destruct (negb (id =? 0)%nat); simpl; auto.
Qed.

Lemma oneLoop_cleanup (a : Analyser) :
  oneLoop a -> oneLoop (closeContext (cancelIfSet a)).
Proof.
  intros H. split.
  - destruct (cleanup_keeps_bars a) as (_ & _ & _ & ->). apply H.
  - left. apply cleanup_cancels, H.
Qed.

Lemma oneLoop_botStep (a : Analyser) (e : LoopEvent) :
  oneLoop a -> oneLoop (botStep a e).
Proof.
  destruct e; simpl; auto using oneLoop_runFrame, oneLoop_cleanup.
Qed.

Lemma oneLoop_botMounted (samples : list Z) : oneLoop (botMounted samples).
Proof. apply oneLoop_animate; simpl; [lia | reflexivity]. Qed.

Lemma oneLoop_bot_run (es : list LoopEvent) (a : Analyser) :
  oneLoop a -> oneLoop (fold_left botStep es a).
Proof.
  revert a. induction es as [|e es IH]; intros a H; simpl; [exact H|].
  apply IH, oneLoop_botStep, H.
Qed.

Lemma cancelIfSet_idle (a : Analyser) :
  frameRequests a = [] -> cancelIfSet a = a.
Proof.
  destruct a as [aid ctx sp bs n fr nx]; unfold cancelIfSet; simpl. intros ->.
  destruct aid as [id|]; [|reflexivity].
  destruct (negb (id =? 0)%nat); reflexivity.
Qed.

(** Once no frame is requested, the bot analyser never sets bars again. *)
Lemma bot_idle_stays_idle (es : list LoopEvent) (a : Analyser) :
  frameRequests a = [] ->
  setBarsCalls (fold_left botStep es a) = setBarsCalls a
  /\ bars (fold_left botStep es a) = bars a.
Proof.
  revert a. induction es as [|e es IH]; intros a Hf; simpl; [auto|].
  destruct e; simpl; auto.
  - rewrite runFrame_idle by exact Hf. auto.
  - rewrite cancelIfSet_idle by exact Hf.
    destruct (IH (closeContext a) Hf) as [-> ->]. auto.
Qed.

(** Disposing the bot analyser, at any moment of its life, stops the
    mutations of its bars. *)
Lemma bot_dispose_stops_mutations
    (samples : list Z) (before after : list LoopEvent) :
  let disposed := botStep (fold_left botStep before (botMounted samples)) Cleanup in
  setBarsCalls (fold_left botStep after disposed) = setBarsCalls disposed
  /\ bars (fold_left botStep after disposed) = bars disposed.
Proof.
  intros disposed. apply bot_idle_stays_idle. subst disposed. simpl.
  apply cleanup_cancels, oneLoop_bot_run, oneLoop_botMounted.
Qed.

Lemma micInvariant_step (a : Analyser) (e : LoopEvent) :
  micInvariant a -> micInvariant (micStep a e).
Proof.
  intros [Hl Hp]. destruct e as [samples| |samples|]; simpl.
  - destruct (streamPending a) eqn:E.
    + split; [|discriminate]. apply oneLoop_animate; [apply Hl | auto].
    + split; [exact Hl | rewrite E; discriminate].
  - split; [exact Hl | discriminate].
  - split; [apply oneLoop_runFrame, Hl|].
    intros H. assert (streamPending a = true) as Hpa.
    { revert H. unfold runFrame.
      destruct Hl as [_ [Hf | (id & _ & _ & Hf)]]; rewrite Hf; simpl; auto. }
    rewrite runFrame_idle by auto. auto.
  - split; [apply oneLoop_cleanup, Hl|]. intros _. apply cleanup_cancels, Hl.
Qed.

Lemma micInvariant_run (es : list LoopEvent) (a : Analyser) :
  micInvariant a -> micInvariant (fold_left micStep es a).
Proof.
  revert a. induction es as [|e es IH]; intros a H; simpl; [exact H|].
  apply IH, micInvariant_step, H.
Qed.

Lemma micInvariant_mounted : micInvariant micMounted.
Proof. split; [split; [discriminate | left; reflexivity] | reflexivity]. Qed.

Lemma mic_idle_stays_idle (es : list LoopEvent) (a : Analyser) :
  frameRequests a = [] -> streamPending a = false ->
  setBarsCalls (fold_left micStep es a) = setBarsCalls a
  /\ bars (fold_left micStep es a) = bars a.
Proof.
  revert a. induction es as [|e es IH]; intros a Hf Hp; simpl; [auto|].
  destruct e; simpl.
  - rewrite Hp. auto.
  - destruct (IH {| animationId := animationId a; audioContext := audioContext a;
                    streamPending := false; bars := bars a;
                    setBarsCalls := setBarsCalls a;
                    frameRequests := frameRequests a;
                    nextFrameId := nextFrameId a |} Hf eq_refl) as [-> ->]. auto.
  - rewrite runFrame_idle by exact Hf. auto.
  - rewrite cancelIfSet_idle by exact Hf.
    destruct (IH (closeContext a) Hf Hp) as [-> ->]. auto.
Qed.

(** Disposing the microphone analyser once its stream has arrived (or
    was denied) stops the mutations too. *)
Lemma mic_dispose_after_stream_stops_mutations
    (before after : list LoopEvent) :
  let a := fold_left micStep before micMounted in
  let disposed := micStep a Cleanup in
  streamPending a = false ->
  setBarsCalls (fold_left micStep after disposed) = setBarsCalls disposed
  /\ bars (fold_left micStep after disposed) = bars disposed.
Proof.
  intros a disposed Hp. subst disposed.
  change (micStep a Cleanup) with (closeContext (cancelIfSet a)).
  apply mic_idle_stays_idle.
  - apply cleanup_cancels, (micInvariant_run before micMounted micInvariant_mounted).
  - destruct (cleanup_keeps_bars a) as (_ & _ & -> & _). exact Hp.
Qed.

Lemma mic_loop_counts (frames : list (list Z)) (a : Analyser) :
  (exists id, frameRequests a = [id]) ->
  setBarsCalls (fold_left micStep (map AnimationFrame frames) a)
  = (setBarsCalls a + length frames)%nat.
Proof.
  revert a. induction frames as [|f fs IH]; intros a [id Hf]; simpl; [lia|].
  rewrite IH.
  - unfold runFrame. rewrite Hf. simpl. lia.
  - unfold runFrame. rewrite Hf. simpl. eauto.
Qed.

(** The microphone analyser disposed before its loop has started: while
    [getUserMedia] is still pending the clean-up finds neither a frame
    handle nor a context; when the stream then arrives the loop starts
    all the same and sets the bars on that call and on every frame after
    it.  No loop is active at that disposal. *)
Lemma mic_disposed_while_stream_pending_keeps_mutating
    (samples : list Z) (frames : list (list Z)) :
  let disposed := micStep micMounted Cleanup in
  setBarsCalls disposed = 0%nat
  /\ frameRequests disposed = []
  /\ setBarsCalls
       (fold_left micStep (StreamGranted samples :: map AnimationFrame frames)
          disposed)
     = S (length frames).
Proof.
  intros disposed. repeat split.
  simpl fold_left. rewrite mic_loop_counts; simpl; eauto.
Qed.



(** ** The waveform analysis *)

Section Waveform.
Local Open Scope R_scope.

Lemma push_loop {A : Type} (f : nat -> A) (l : list nat) (acc : list A) :
  fold_left (fun bars i => bars ++ [f i]) l acc = acc ++ map f l.
Proof.
  revert acc. induction l as [|i l IH]; intros acc; simpl.
  - rewrite app_nil_r. reflexivity.
  - rewrite IH, <- app_assoc. reflexivity.
Qed.

Lemma computeBars_map (dataArray : list Z) :
  computeBars dataArray =
  map (barValue dataArray (length dataArray / 32)) (seq 0 32).
Proof. unfold computeBars. rewrite push_loop. reflexivity. Qed.

Lemma sum_loop (g : nat -> R) (l : list nat) (acc : R) :
  fold_left (fun sum j => sum + Rabs (g j) * Rabs (g j)) l acc =
  acc + sumOfSquares (map g l).
Proof.
  revert acc. induction l as [|j l IH]; intros acc; simpl.
  - lra.
  - rewrite IH.
    replace (Rabs (g j) * Rabs (g j)) with (g j * g j).
    + lra.
    + destruct (Rcase_abs (g j)) as [Hn|Hp].
      * rewrite (Rabs_left _ Hn). lra.
      * rewrite (Rabs_right _ Hp). lra.
Qed.

Lemma segment_by_index (W : list Z) (b n : nat) :
  (b + n <= length W)%nat ->
  take n (drop b W) = map (fun j => nth (b + j) W 0%Z) (seq 0 n).
Proof.
  intros Hlen. apply list_eq. intros k.
  destruct (Nat.lt_ge_cases k n) as [Hk|Hk].
  - rewrite lookup_take_lt by exact Hk. rewrite lookup_drop.
    change (map ?f ?l) with (f <$> l).
    rewrite list_lookup_fmap, lookup_seq_lt by exact Hk. simpl.
    destruct (W !! (b + k)%nat) as [x|] eqn:E.
    + rewrite (nth_lookup_Some _ _ 0%Z _ E). reflexivity.
    + apply lookup_ge_None in E. lia.
  - rewrite lookup_take_ge by exact Hk.
    change (map ?f ?l) with (f <$> l).
    rewrite list_lookup_fmap, lookup_seq_ge by exact Hk. reflexivity.
Qed.

Lemma segmentSum_sumOfSquares (W : list Z) (n i : nat) :
  (i * n + n <= length W)%nat ->
  segmentSum W n i = sumOfSquares (centred <$> take n (drop (i * n) W)).
Proof.
  intros Hlen. unfold segmentSum.
  rewrite (sum_loop (fun j => (sampleAt W (i * n + j) - 128) / 128)).
  rewrite (segment_by_index W (i * n) n Hlen).
  change (centred <$> ?l) with (map centred l). rewrite map_map.
  unfold centred, sampleAt. lra.
Qed.

Lemma barValue_barSpec (W : list Z) (i : nat) :
  length W = FFT_SIZE -> (i < NUM_BARS)%nat ->
  barValue W (length W / 32) i = barSpec W i.
Proof.
  intros HW Hi. rewrite HW. unfold FFT_SIZE, NUM_BARS in *.
  change (256 / 32)%nat with 8%nat.
  unfold barValue, barSpec, clamp, rootMeanSquare, segmentOf.
  unfold FFT_SIZE, NUM_BARS. change (256 / 32)%nat with 8%nat.
  rewrite segmentSum_sumOfSquares by lia.
  rewrite length_fmap, length_take, length_drop.
  replace (8 `min` (length W - i * 8))%nat with 8%nat by lia.
  rewrite Rmult_comm. reflexivity.
Qed.

Lemma clamp_range (x : R) : 5 <= clamp 5 95 x <= 95.
Proof.
  unfold clamp, Rmax, Rmin.
  destruct (Rle_dec 95 x); destruct (Rle_dec 5 _); lra.
Qed.

Lemma sumOfSquares_cons (x : Z) (xs : list Z) :
  sumOfSquares (centred <$> x :: xs) =
  centred x * centred x + sumOfSquares (centred <$> xs).
Proof. reflexivity. Qed.

Lemma sumOfSquares_zero (xs : list Z) :
  Forall (fun s => s = 128%Z) xs -> sumOfSquares (centred <$> xs) = 0.
Proof.
  induction 1 as [|x xs -> _ IH]; [reflexivity|].
  rewrite sumOfSquares_cons, IH. unfold centred. lra.
Qed.

Lemma barSpec_silent_segment (W : list Z) (i : nat) :
  length W = FFT_SIZE -> (i < NUM_BARS)%nat ->
  Forall (fun s => s = 128%Z) (segmentOf W i) -> barSpec W i = 5.
Proof.
  intros HW Hi Hs. unfold barSpec, rootMeanSquare.
  rewrite (sumOfSquares_zero _ Hs).
  unfold Rdiv. rewrite Rmult_0_l, sqrt_0, Rmult_0_r.
  unfold clamp, Rmax, Rmin.
  destruct (Rle_dec 95 0); destruct (Rle_dec 5 _); lra.
Qed.

Lemma isWindow_silence : isWindow silence.
Proof.
  split; [reflexivity|]. unfold silence. apply Forall_replicate. lia.
Qed.

Lemma computeBars_lookup (W : list Z) (i : nat) :
  length W = FFT_SIZE -> (i < NUM_BARS)%nat ->
  computeBars W !! i = Some (barSpec W i).
Proof.
  intros HW Hi. rewrite computeBars_map.
  change (map ?f ?l) with (f <$> l).
  rewrite list_lookup_fmap, lookup_seq_lt by exact Hi. simpl.
  rewrite barValue_barSpec by assumption. reflexivity.
Qed.

Lemma computeBars_silence : computeBars silence = replicate NUM_BARS 5.
Proof.
  apply list_eq. intros i.
  destruct (Nat.lt_ge_cases i NUM_BARS) as [Hi|Hi].
  - rewrite computeBars_lookup by (reflexivity || exact Hi).
    rewrite barSpec_silent_segment; [| reflexivity | exact Hi |].
    + symmetry. apply lookup_replicate_2. exact Hi.
    + unfold segmentOf, silence.
      apply Forall_take, Forall_drop, Forall_replicate. reflexivity.
  - rewrite (proj2 (lookup_ge_None _ _)).
    + symmetry. apply lookup_ge_None. rewrite length_replicate. exact Hi.
    + rewrite computeBars_map, length_map, length_seq. exact Hi.
Qed.

(** C1: on a window of 256 bytes the analysis yields exactly 32 bars;
    bar [i] is the clamp into [5, 95] of 400 times the root mean square
    of the centred samples [(s - 128) / 128] of the [i]-th segment of
    [floor (256 / 32)] samples; and on silence every bar is 5. *)
Theorem bars_are_clamped_segment_rms (W : list Z) :
  isWindow W ->
  length (computeBars W) = NUM_BARS
  /\ (forall i, (i < NUM_BARS)%nat -> computeBars W !! i = Some (barSpec W i))
  /\ (forall b, b ∈ computeBars W -> 5 <= b <= 95)
  /\ computeBars silence = replicate NUM_BARS 5.
Proof.
  intros [HW _]. split; [|split; [|split]].
  - rewrite computeBars_map, length_map, length_seq. reflexivity.
  - intros i Hi. apply computeBars_lookup; assumption.
  - intros b Hb. apply list_elem_of_lookup in Hb as [i Hb].
    assert (Hi : (i < NUM_BARS)%nat).
    { apply lookup_lt_Some in Hb.
      rewrite computeBars_map, length_map, length_seq in Hb. exact Hb. }
    rewrite computeBars_lookup in Hb by assumption.
    injection Hb as <-. apply clamp_range.
  - apply computeBars_silence.
Qed.
End Waveform.

Lemma bars_are_clamped_segment_rms_witness :
  length (computeBars silence) = NUM_BARS
  /\ computeBars silence !! 31%nat = Some (barSpec silence 31).
Proof.
  destruct (bars_are_clamped_segment_rms silence isWindow_silence)
    as (Hlen & Hbar & _).
  split; [exact Hlen | apply Hbar; unfold NUM_BARS; lia].
Defined.

(** ** The render cycle of the layout *)

Lemma ConversationMode_eqb_eq (a b : ConversationMode) :
  ConversationMode_eqb a b = true <-> a = b.
Proof. destruct a, b; simpl; split; congruence. Qed.

Lemma ConversationMode_eqb_refl (a : ConversationMode) :
  ConversationMode_eqb a a = true.
Proof. destruct a; reflexivity. Qed.

Lemma TransportState_eqb_refl (a : TransportState) : TransportState_eqb a a = true.
Proof. destruct a; reflexivity. Qed.

Lemma TransportState_eqb_eq (a b : TransportState) :
  TransportState_eqb a b = true <-> a = b.
Proof. destruct a, b; simpl; split; congruence. Qed.

Lemma Bool_eqb_refl (b : bool) : Bool.eqb b b = true.
Proof. destruct b; reflexivity. Qed.

Lemma sameView_refl (l : Layout) : sameView l l = true.
Proof. unfold sameView. rewrite Nat.eqb_refl, ConversationMode_eqb_refl. reflexivity. Qed.

Lemma sameView_depsOf (p : Props) (l0 l : Layout) :
  sameView l0 l = true -> depsOf p l0 = depsOf p l.
Proof.
  unfold sameView, depsOf. intros H. apply andb_true_iff in H as [Hh Hm].
  apply Nat.eqb_eq in Hh. apply ConversationMode_eqb_eq in Hm.
  rewrite Hh, Hm. reflexivity.
Qed.

Lemma setRendered_stable (d : Deps) (l : Layout) :
  rendered l = Some d -> setRendered d l = l.
Proof. destruct l; simpl. intros ->. reflexivity. Qed.

(** The first pass after a change of props: effect 2 has nothing new. *)
Lemma effectsPass_first (now : nat) (p0 p : Props) (l : Layout) :
  stable p0 l ->
  effectsPass now p l = setRendered (depsOf p l) (propEffects now p0 p l).
Proof.
  unfold stable. intros Hr. unfold effectsPass, depChanged, propEffects.
  rewrite Hr. cbn [depsOf dep_isUserSpeaking dep_historyId dep_conversationState
                     dep_user dep_bot dep_transportState].
  rewrite Nat.eqb_refl, ConversationMode_eqb_refl. cbn [andb negb].
  destruct (Bool.eqb (p_isUserSpeaking p0) (p_isUserSpeaking p));
    destruct (String.eqb (user (p_transcripts p0)) (user (p_transcripts p)));
    destruct (String.eqb (bot (p_transcripts p0)) (bot (p_transcripts p)));
    destruct (TransportState_eqb (p_transportState p0) (p_transportState p));
    reflexivity.
Qed.

(** A later pass with the same props: only effect 2 can run. *)
Lemma effectsPass_again (now : nat) (p : Props) (l0 l : Layout) :
  rendered l = Some (depsOf p l0) ->
  effectsPass now p l =
  setRendered (depsOf p l) (if sameView l0 l then l else quiesce l).
Proof.
  intros Hr. unfold effectsPass, depChanged.
  rewrite Hr. cbn [depsOf dep_isUserSpeaking dep_historyId dep_conversationState
                     dep_user dep_bot dep_transportState].
  rewrite Bool_eqb_refl, !String.eqb_refl, TransportState_eqb_refl.
  cbn [andb negb]. fold (sameView l0 l).
  destruct (sameView l0 l); reflexivity.
Qed.

Lemma quiesce_eq (l : Layout) :
  quiesce l =
  if ConversationMode_eqb (conversationState l) thinking
     && lastIsBot (transcriptHistory l)
  then setConversationState idle l else l.
Proof.
  unfold quiesce, clearThinkingEffect, lastIsBot.
  destruct (ConversationMode_eqb (conversationState l) thinking); simpl; [|reflexivity].
  destruct (transcriptHistory l) as [|m h] eqn:E; [reflexivity|].
  change (0 <? length (m :: h))%nat with true. cbn iota.
  destruct (last (m :: h)) as [x|]; [|reflexivity].
  destruct (Speaker_eqb (speaker x) SpBot); reflexivity.
Qed.

Lemma quiesce_setRendered (d : Deps) (l : Layout) :
  quiesce (setRendered d l) = setRendered d (quiesce l).
Proof.
  rewrite !quiesce_eq. simpl.
  destruct (ConversationMode_eqb (conversationState l) thinking
            && lastIsBot (transcriptHistory l)); reflexivity.
Qed.

Lemma quiesce_history (l : Layout) :
  transcriptHistory (quiesce l) = transcriptHistory l
  /\ historyId (quiesce l) = historyId l
  /\ prevIsUserSpeaking (quiesce l) = prevIsUserSpeaking l
  /\ lastProcessedTts (quiesce l) = lastProcessedTts l.
Proof.
  rewrite quiesce_eq.
  destruct (ConversationMode_eqb (conversationState l) thinking
            && lastIsBot (transcriptHistory l)); auto.
Qed.

Lemma quiesce_mode (l : Layout) :
  conversationState (quiesce l) =
  if ConversationMode_eqb (conversationState l) thinking
     && lastIsBot (transcriptHistory l)
  then idle else conversationState l.
Proof.
  rewrite quiesce_eq.
  destruct (ConversationMode_eqb (conversationState l) thinking
            && lastIsBot (transcriptHistory l)); reflexivity.
Qed.

Lemma quiet_quiesce (l : Layout) : quiet (quiesce l).
Proof.
  unfold quiet. destruct (quiesce_history l) as (-> & _).
  rewrite quiesce_mode.
  destruct (conversationState l); simpl; try discriminate.
  destruct (lastIsBot (transcriptHistory l)); [discriminate | reflexivity].
Qed.

Lemma quiesce_quiet (l : Layout) : quiet l -> quiesce l = l.
Proof.
  unfold quiet. intros H. rewrite quiesce_eq.
  destruct (conversationState l); simpl; try reflexivity.
  rewrite H; reflexivity.
Qed.

Lemma quiesce_idempotent (l : Layout) : quiesce (quiesce l) = quiesce l.
Proof. apply quiesce_quiet, quiet_quiesce. Qed.

Lemma setRendered_twice (d d' : Deps) (l : Layout) :
  setRendered d (setRendered d' l) = setRendered d l.
Proof. reflexivity. Qed.

Lemma needsRender_setRendered (p : Props) (l0 l : Layout) :
  needsRender (setRendered (depsOf p l0) l) = negb (sameView l0 l).
Proof. reflexivity. Qed.

Lemma sameView_quiesce_mode (l : Layout) :
  sameView l (quiesce l) = true -> quiesce l = l.
Proof.
  unfold sameView. rewrite quiesce_eq.
  destruct (ConversationMode_eqb (conversationState l) thinking
            && lastIsBot (transcriptHistory l)) eqn:E; [|reflexivity].
  apply andb_true_iff in E as [E _]. apply ConversationMode_eqb_eq in E.
  simpl. rewrite E. rewrite andb_false_r. discriminate.
Qed.

Lemma settle_S (fuel now : nat) (p : Props) (l : Layout) :
  settle (S fuel) now p l =
  if needsRender (effectsPass now p l)
  then settle fuel now p (effectsPass now p l)
  else effectsPass now p l.
Proof. reflexivity. Qed.

(** The render cycle after any first pass: the state the first pass left,
    with effect 2 applied if the pass changed anything. *)
Lemma settle_after_first (fuel now : nat) (p : Props) (l0 l1 : Layout) :
  let r1 := setRendered (depsOf p l0) l1 in
  (if needsRender r1 then settle (S (S fuel)) now p r1 else r1) =
  if sameView l0 l1 then r1 else finish p (quiesce l1).
Proof.
  intros r1. subst r1. rewrite needsRender_setRendered.
  destruct (sameView l0 l1) eqn:E1; [reflexivity|]. cbn [negb].
  rewrite settle_S.
  rewrite (effectsPass_again now p l0) by reflexivity.
  change (sameView l0 (setRendered (depsOf p l0) l1)) with (sameView l0 l1).
  rewrite E1. rewrite quiesce_setRendered, setRendered_twice.
  change (depsOf p (setRendered (depsOf p l0) l1)) with (depsOf p l1).
  rewrite needsRender_setRendered.
  destruct (sameView l1 (quiesce l1)) eqn:E2; cbn [negb].
  - unfold finish. rewrite (sameView_quiesce_mode l1 E2). reflexivity.
  - rewrite settle_S.
    rewrite (effectsPass_again now p l1) by reflexivity.
    change (sameView l1 (setRendered (depsOf p l1) (quiesce l1)))
      with (sameView l1 (quiesce l1)).
    rewrite E2, quiesce_setRendered, setRendered_twice, quiesce_idempotent.
    change (depsOf p (setRendered (depsOf p l1) (quiesce l1)))
      with (depsOf p (quiesce l1)).
    rewrite needsRender_setRendered, sameView_refl. reflexivity.
Qed.

Lemma historyStep_refl (l : Layout) : historyStep l l.
Proof. split; auto. Qed.

Lemma historyStep_trans (a b c : Layout) :
  historyStep a b -> historyStep b c -> historyStep a c.
Proof.
  intros [H1 H1'] [H2 H2']. split; [lia|]. intros E.
  rewrite H2' by lia. apply H1'. lia.
Qed.

Lemma historyStep_set (h : list TranscriptMessage) (l : Layout) :
  historyStep l (setTranscriptHistory h l).
Proof. split; simpl; [lia|]. intros E. lia. Qed.

Lemma historyStep_speakingEdge (p : Props) (l : Layout) :
  historyStep l (speakingEdgeEffect p l).
Proof.
  unfold speakingEdgeEffect.
  destruct (negb (prevIsUserSpeaking l) && p_isUserSpeaking p);
    [|destruct (prevIsUserSpeaking l && negb (p_isUserSpeaking p))];
    split; auto.
Qed.

Lemma historyStep_userHistory (now : nat) (p : Props) (l : Layout) :
  historyStep l (userHistoryEffect now p l).
Proof.
  unfold userHistoryEffect.
  destruct (_ && _ && _); [|apply historyStep_refl].
  destruct (lastMsgOf SpUser (transcriptHistory l)) as [m|];
    [destruct (negb _)|]; auto using historyStep_refl, historyStep_set.
Qed.

Lemma historyStep_botHistory (now : nat) (p : Props) (l : Layout) :
  historyStep l (botHistoryEffect now p l).
Proof.
  unfold botHistoryEffect.
  destruct (_ && _ && _); [|apply historyStep_refl]. cbv zeta.
  change (transcriptHistory (setLastProcessedTts _ l)) with (transcriptHistory l).
  destruct (lastMsgOf SpBot (transcriptHistory l)) as [m|];
    [destruct (String.eqb _ _)|]; split; simpl; auto; lia.
Qed.

Lemma historyStep_resetOnReady (p : Props) (l : Layout) :
  historyStep l (resetOnReadyEffect p l).
Proof.
  unfold resetOnReadyEffect.
  destruct (TransportState_eqb _ _); [|apply historyStep_refl].
  split; simpl; lia.
Qed.

Lemma historyStep_propEffects (now : nat) (p0 p : Props) (l : Layout) :
  historyStep l (propEffects now p0 p l).
Proof.
  unfold propEffects.
  repeat match goal with
         | |- context [if ?c then _ else _] => destruct c
         end;
    repeat first
      [ apply historyStep_refl
      | eapply historyStep_trans; [|apply historyStep_resetOnReady]
      | eapply historyStep_trans; [|apply historyStep_botHistory]
      | eapply historyStep_trans; [|apply historyStep_userHistory]
      | apply historyStep_speakingEdge ].
Qed.

Lemma effectsPass_shape (now : nat) (p : Props) (l : Layout) :
  exists l1, effectsPass now p l = setRendered (depsOf p l) l1.
Proof. eexists. reflexivity. Qed.

(** Three renders are enough from any state of the layout: the cycle has
    then come to rest, and more fuel changes nothing. *)
Lemma settle_enough (fuel now : nat) (p : Props) (l : Layout) :
  settle (RENDER_FUEL + fuel) now p l = settle RENDER_FUEL now p l
  /\ needsRender (settle RENDER_FUEL now p l) = false.
Proof.
  unfold RENDER_FUEL. change (3 + fuel)%nat with (S (S (S fuel))).
  rewrite (settle_S (S (S fuel))), (settle_S 2).
  destruct (effectsPass_shape now p l) as [l1 ->].
  rewrite !settle_after_first. split; [reflexivity|].
  destruct (sameView l l1) eqn:E.
  - rewrite needsRender_setRendered, E. reflexivity.
  - unfold finish. rewrite needsRender_setRendered, sameView_refl. reflexivity.
Qed.

Lemma userHistoryEffect_frame (now : nat) (p : Props) (l : Layout) :
  conversationState (userHistoryEffect now p l) = conversationState l
  /\ prevIsUserSpeaking (userHistoryEffect now p l) = prevIsUserSpeaking l
  /\ lastProcessedTts (userHistoryEffect now p l) = lastProcessedTts l
  /\ rendered (userHistoryEffect now p l) = rendered l.
Proof.
  unfold userHistoryEffect.
  destruct (_ && _ && _); auto.
  destruct (lastMsgOf SpUser (transcriptHistory l)) as [m|];
    [destruct (negb _)|]; auto.
Qed.

Lemma botHistoryEffect_frame (now : nat) (p : Props) (l : Layout) :
  conversationState (botHistoryEffect now p l) = conversationState l
  /\ prevIsUserSpeaking (botHistoryEffect now p l) = prevIsUserSpeaking l
  /\ rendered (botHistoryEffect now p l) = rendered l.
Proof.
  unfold botHistoryEffect.
  destruct (_ && _ && _); auto. cbv zeta.
  destruct (lastMsgOf SpBot _) as [m|]; [destruct (String.eqb _ _)|]; auto.
Qed.

Lemma resetOnReadyEffect_frame (p : Props) (l : Layout) :
  conversationState (resetOnReadyEffect p l) = conversationState l
  /\ prevIsUserSpeaking (resetOnReadyEffect p l) = prevIsUserSpeaking l
  /\ rendered (resetOnReadyEffect p l) = rendered l.
Proof. unfold resetOnReadyEffect. destruct (TransportState_eqb _ _); auto. Qed.

Lemma speakingEdgeEffect_mode (p : Props) (l : Layout) :
  conversationState (speakingEdgeEffect p l) =
  (if negb (prevIsUserSpeaking l) && p_isUserSpeaking p then listening
   else if prevIsUserSpeaking l && negb (p_isUserSpeaking p) then thinking
        else conversationState l)
  /\ prevIsUserSpeaking (speakingEdgeEffect p l) = p_isUserSpeaking p
  /\ transcriptHistory (speakingEdgeEffect p l) = transcriptHistory l
  /\ historyId (speakingEdgeEffect p l) = historyId l
  /\ lastProcessedTts (speakingEdgeEffect p l) = lastProcessedTts l.
Proof.
  unfold speakingEdgeEffect.
  destruct (negb (prevIsUserSpeaking l) && p_isUserSpeaking p);
    [|destruct (prevIsUserSpeaking l && negb (p_isUserSpeaking p))]; auto.
Qed.

(** The mode the prop effects leave: only the speaking edge sets it. *)
Lemma propEffects_mode (now : nat) (p0 p : Props) (l : Layout) :
  prevIsUserSpeaking l = p_isUserSpeaking p0 ->
  conversationState (propEffects now p0 p l) =
  (if negb (p_isUserSpeaking p0) && p_isUserSpeaking p then listening
   else if p_isUserSpeaking p0 && negb (p_isUserSpeaking p) then thinking
        else conversationState l)
  /\ prevIsUserSpeaking (propEffects now p0 p l) = p_isUserSpeaking p.
Proof.
  intros Hprev. unfold propEffects. cbv zeta.
  set (l1 := if Bool.eqb (p_isUserSpeaking p0) (p_isUserSpeaking p) then l
             else speakingEdgeEffect p l).
  assert (H1 : conversationState l1 =
               (if negb (p_isUserSpeaking p0) && p_isUserSpeaking p then listening
                else if p_isUserSpeaking p0 && negb (p_isUserSpeaking p) then thinking
                     else conversationState l)
               /\ prevIsUserSpeaking l1 = p_isUserSpeaking p).
  { subst l1. destruct (speakingEdgeEffect_mode p l) as (Hm & Hp & _).
    rewrite Hprev in Hm.
    destruct (p_isUserSpeaking p0), (p_isUserSpeaking p); simpl in *; auto. }
  clearbody l1. destruct H1 as [Hm Hp].
  repeat match goal with
         | |- context [if ?c then _ else _] =>
             lazymatch c with
             | negb _ && _ => fail
             | _ && negb _ => fail
             | _ => destruct c
             end
         end;
    rewrite ?(proj1 (resetOnReadyEffect_frame _ _)),
            ?(proj1 (proj2 (resetOnReadyEffect_frame _ _))),
            ?(proj1 (botHistoryEffect_frame _ _ _)),
            ?(proj1 (proj2 (botHistoryEffect_frame _ _ _))),
            ?(proj1 (userHistoryEffect_frame _ _ _)),
            ?(proj1 (proj2 (userHistoryEffect_frame _ _ _)));
    auto.
Qed.

(** The render cycle after a change of props, from a layout at rest. *)
Lemma settle_from_stable (now : nat) (p0 p : Props) (l : Layout) :
  stable p0 l -> quiet l -> prevIsUserSpeaking l = p_isUserSpeaking p0 ->
  settle RENDER_FUEL now p l = finish p (quiesce (propEffects now p0 p l)).
Proof.
  intros Hs Hq Hprev. unfold RENDER_FUEL.
  rewrite settle_S, (effectsPass_first now p0 p l Hs), settle_after_first.
  set (l1 := propEffects now p0 p l).
  destruct (sameView l l1) eqn:E; [|reflexivity].
  unfold finish. assert (Hq1 : quiet l1).
  { pose proof E as E'. unfold sameView in E'.
    apply andb_true_iff in E' as [Hh Hm].
    apply Nat.eqb_eq in Hh. apply ConversationMode_eqb_eq in Hm.
    destruct (historyStep_propEffects now p0 p l) as [_ Hhist].
    fold l1 in Hhist. unfold quiet. rewrite <- Hm, Hhist by auto. exact Hq. }
  rewrite (quiesce_quiet l1 Hq1), (sameView_depsOf p l l1 E). reflexivity.
Qed.

(** ** The application between events *)

Lemma render_frame (w : World) :
  app (render w) = app w
  /\ transportState (render w) = transportState w
  /\ now (render w) = now w
  /\ layout (render w) = settle RENDER_FUEL (now w) (propsOf w) (layout w)
  /\ timeoutDep (render w) = Some (isUserSpeaking (app w)).
Proof. repeat split. Qed.

Lemma render_layout (w : World) (p0 : Props) :
  stable p0 (layout w) -> quiet (layout w) ->
  prevIsUserSpeaking (layout w) = p_isUserSpeaking p0 ->
  layout (render w) =
  finish (propsOf w) (quiesce (propEffects (now w) p0 (propsOf w) (layout w))).
Proof.
  intros Hs Hq Hp. destruct (render_frame w) as (_ & _ & _ & -> & _).
  apply settle_from_stable; assumption.
Qed.

Lemma render_timeout (w : World) (b : bool) :
  timeoutDep w = Some b ->
  safetyTimeout (render w) =
  if Bool.eqb b (isUserSpeaking (app w)) then safetyTimeout w
  else if isUserSpeaking (app w) then Some (now w + SAFETY_TIMEOUT_MS)%nat else None.
Proof.
  intros Hd. unfold render, safetyTimeoutEffect. simpl. rewrite Hd.
  destruct (Bool.eqb b (isUserSpeaking (app w))); reflexivity.
Qed.

Lemma consistent_render (w : World) (p0 : Props) :
  stable p0 (layout w) -> quiet (layout w) ->
  prevIsUserSpeaking (layout w) = p_isUserSpeaking p0 ->
  timeoutDep w = Some (p_isUserSpeaking p0) ->
  (p_isUserSpeaking p0 = isUserSpeaking (app w) -> timeoutConsistent w) ->
  consistent (render w).
Proof.
  intros Hs Hq Hp Hd Ht.
  pose proof (render_layout w p0 Hs Hq Hp) as Hl.
  pose proof (render_timeout w _ Hd) as Hto.
  destruct (render_frame w) as (Ha & Htr & Hn & _ & Hdep).
  unfold consistent.
  assert (Hprops : propsOf (render w) = propsOf w).
  { unfold propsOf. rewrite Ha, Htr. reflexivity. }
  rewrite Hprops, Hl, Ha. split; [|split; [|split; [|split]]].
  - reflexivity.
  - apply quiet_quiesce.
  - unfold finish. simpl.
    destruct (quiesce_history (propEffects (now w) p0 (propsOf w) (layout w)))
      as (_ & _ & -> & _).
    apply (propEffects_mode (now w) p0 (propsOf w) (layout w) Hp).
  - exact Hdep.
  - unfold timeoutConsistent. rewrite Hto, Ha, Hn.
    destruct (Bool.eqb (p_isUserSpeaking p0) (isUserSpeaking (app w))) eqn:E.
    + apply Ht. apply eqb_prop in E. exact E.
    + destruct (isUserSpeaking (app w)); [|reflexivity].
      unfold SAFETY_TIMEOUT_MS. repeat split; lia.
Qed.

Lemma timeoutConsistent_withApp (a : AppState) (w : World) :
  timeoutConsistent w -> isUserSpeaking (app w) = isUserSpeaking a ->
  timeoutConsistent (withApp a w).
Proof.
  unfold timeoutConsistent. simpl. intros H E. rewrite <- E. exact H.
Qed.

(** An event handler changed the store: the render that follows. *)
Lemma consistent_withApp (a : AppState) (w : World) :
  consistent w -> consistent (render (withApp a w)).
Proof.
  intros (Hs & Hq & Hp & Hd & Ht).
  apply (consistent_render (withApp a w) (propsOf w)); auto.
  intros E. apply timeoutConsistent_withApp; [exact Ht | exact E].
Qed.

Lemma consistent_withTransportState (s : TransportState) (w : World) :
  consistent w -> consistent (render (withTransportState s w)).
Proof.
  intros (Hs & Hq & Hp & Hd & Ht).
  apply (consistent_render (withTransportState s w) (propsOf w)); auto.
Qed.

Lemma consistent_withNow (t : nat) (w : World) :
  consistent w -> safetyTimeout w = None -> consistent (withNow t w).
Proof.
  intros (Hs & Hq & Hp & Hd & Ht) Hnone.
  split; [|split; [|split; [|split]]]; auto.
  unfold timeoutConsistent in *. simpl. rewrite Hnone in *. exact Ht.
Qed.

Lemma safetyTimeoutCallback_clears (a : AppState) :
  isUserSpeaking (safetyTimeoutCallback a) = false
  /\ streamingUserText (safetyTimeoutCallback a) = ""
  /\ streamingUserTextRef (safetyTimeoutCallback a) = "".
Proof.
  unfold safetyTimeoutCallback.
  destruct (negb (String.eqb (streamingUserTextRef a) "")); auto.
Qed.

Lemma consistent_fire (w : World) (deadline : nat) :
  consistent w -> safetyTimeout w = Some deadline ->
  consistent (render (fireSafetyTimeout (withNow deadline w)))
  /\ safetyTimeout (render (fireSafetyTimeout (withNow deadline w))) = None
  /\ app (render (fireSafetyTimeout (withNow deadline w)))
     = safetyTimeoutCallback (app w).
Proof.
  intros (Hs & Hq & Hp & Hd & Ht) Hsome.
  unfold timeoutConsistent in Ht. rewrite Hsome in Ht. destruct Ht as (Hsp & _).
  split; [|split].
  - apply (consistent_render _ (propsOf w)); auto.
    simpl. rewrite Hsp, (proj1 (safetyTimeoutCallback_clears (app w))).
    discriminate.
  - rewrite (render_timeout (fireSafetyTimeout (withNow deadline w)) _ Hd).
    simpl. rewrite Hsp, (proj1 (safetyTimeoutCallback_clears (app w))).
    reflexivity.
  - reflexivity.
Qed.

Theorem consistent_step (w : World) (e : Event) :
  consistent w -> consistent (step w e).
Proof.
  intros Hc. destruct e; simpl;
    try (apply consistent_withApp; exact Hc);
    try (apply consistent_withTransportState; exact Hc).
  destruct (safetyTimeout w) as [deadline|] eqn:Hto.
  - pose proof Hc as (_ & _ & _ & _ & Ht).
    unfold timeoutConsistent in Ht. rewrite Hto in Ht.
    destruct Ht as (Hsp & Hlt & Hle).
    destruct (Nat.leb_spec deadline (now w + ms)) as [Hfire|Hwait].
    + replace (Nat.max (now w) deadline) with deadline by lia.
      destruct (consistent_fire w deadline Hc Hto) as (Hc' & Hnone & _).
      apply consistent_withNow; assumption.
    + destruct Hc as (Hs & Hq & Hp & Hd & _).
      split; [|split; [|split; [|split]]]; auto.
      unfold timeoutConsistent. simpl. rewrite Hto.
      unfold SAFETY_TIMEOUT_MS in *. repeat split; auto; lia.
  - apply consistent_withNow; assumption.
Qed.

Lemma consistent_initialWorld : consistent initialWorld.
Proof.
  split; [|split; [|split; [|split]]]; try reflexivity.
  intros H. discriminate H.
Qed.

Lemma consistent_run (es : list Event) (w : World) :
  consistent w -> consistent (run w es).
Proof.
  revert w. induction es as [|e es IH]; intros w Hc; simpl; [exact Hc|].
  apply IH, consistent_step, Hc.
Qed.

Lemma consistent_reachable (es : list Event) : consistent (run initialWorld es).
Proof. apply consistent_run, consistent_initialWorld. Qed.

(** ** One event, seen from the layout *)

Lemma propEffects_same (now : nat) (p : Props) (l : Layout) :
  propEffects now p p l = l.
Proof.
  unfold propEffects.
  rewrite Bool_eqb_refl, !String.eqb_refl, TransportState_eqb_refl. reflexivity.
Qed.

Lemma finish_stable (p : Props) (l : Layout) : stable p l -> finish p l = l.
Proof. intros H. apply setRendered_stable, H. Qed.

Lemma render_layout_from (w x : World) :
  consistent w -> layout x = layout w ->
  layout (render x) =
  finish (propsOf (render x))
    (quiesce (propEffects (now x) (propsOf w) (propsOf (render x)) (layout w))).
Proof.
  intros (Hs & Hq & Hp & _) El.
  change (propsOf (render x)) with (propsOf x). rewrite <- El.
  apply render_layout; rewrite El; assumption.
Qed.

(** The layout after an event: the prop effects for the change of props
    the event brought, run at some time [t], and then effect 2. *)
Lemma step_layout (w : World) (e : Event) :
  consistent w ->
  exists t,
    layout (step w e) =
    finish (propsOf (step w e))
      (quiesce (propEffects t (propsOf w) (propsOf (step w e)) (layout w))).
Proof.
  intros Hc. pose proof Hc as (Hs & Hq & Hp & Hd & Ht).
  assert (Hidle : forall t, layout w =
            finish (propsOf w) (quiesce (propEffects t (propsOf w) (propsOf w) (layout w)))).
  { intros t. rewrite propEffects_same, (quiesce_quiet _ Hq), finish_stable; auto. }
  destruct e; cbn [step];
    [ exists (now w); exact (render_layout_from w (withApp _ w) Hc eq_refl) ..
    | exists (now w); exact (render_layout_from w (withTransportState _ w) Hc eq_refl)
    | ].
  destruct (safetyTimeout w) as [deadline|] eqn:Hto; [|exists 0%nat; apply Hidle].
  destruct (deadline <=? now w + ms)%nat; [|exists 0%nat; apply Hidle].
  exists (Nat.max (now w) deadline).
  exact (render_layout_from w
           (fireSafetyTimeout (withNow (Nat.max (now w) deadline) w)) Hc eq_refl).
Qed.

Lemma finish_frame (p : Props) (l : Layout) :
  transcriptHistory (finish p l) = transcriptHistory l
  /\ conversationState (finish p l) = conversationState l
  /\ lastProcessedTts (finish p l) = lastProcessedTts l.
Proof. repeat split. Qed.

Lemma step_history (w : World) (e : Event) :
  consistent w ->
  exists t,
    history (step w e) =
    transcriptHistory (propEffects t (propsOf w) (propsOf (step w e)) (layout w))
    /\ lastProcessedTts (layout (step w e)) =
       lastProcessedTts (propEffects t (propsOf w) (propsOf (step w e)) (layout w)).
Proof.
  intros Hc. destruct (step_layout w e Hc) as [t Ht]. exists t.
  unfold history. rewrite Ht.
  destruct (quiesce_history (propEffects t (propsOf w) (propsOf (step w e)) (layout w)))
    as (Hh & _ & _ & Hl).
  split; [exact Hh | exact Hl].
Qed.

(** The mode after an event: what the speaking edge asks for, then idle
    instead of thinking if the history ends with an agent entry. *)
Lemma step_mode (w : World) (e : Event) :
  consistent w ->
  mode (step w e) = settleMode (edgeMode w (step w e)) (history (step w e)).
Proof.
  intros Hc. destruct (step_layout w e Hc) as [t Ht].
  pose proof Hc as (_ & _ & Hp & _).
  unfold mode, history. rewrite Ht.
  set (X := propEffects t (propsOf w) (propsOf (step w e)) (layout w)).
  change (conversationState (finish _ (quiesce X)))
    with (conversationState (quiesce X)).
  change (transcriptHistory (finish _ (quiesce X)))
    with (transcriptHistory (quiesce X)).
  destruct (quiesce_history X) as (-> & _). rewrite quiesce_mode.
  unfold settleMode.
  destruct (propEffects_mode t (propsOf w) (propsOf (step w e)) (layout w) Hp)
    as [Hm _].
  fold X in Hm. rewrite Hm. reflexivity.
Qed.

(** ** The transcript history *)

Lemma Speaker_eqb_refl (sp : Speaker) : Speaker_eqb sp sp = true.
Proof. destruct sp; reflexivity. Qed.

Lemma lastMsgOf_last (sp : Speaker) (h : list TranscriptMessage) :
  lastMsgOf sp h = last (List.filter (fun m => Speaker_eqb (speaker m) sp) h).
Proof.
  unfold lastMsgOf. induction h as [|x h IH] using rev_ind; [reflexivity|].
  rewrite rev_unit, List.filter_app. simpl.
  destruct (Speaker_eqb (speaker x) sp).
  - rewrite last_snoc. reflexivity.
  - rewrite app_nil_r. exact IH.
Qed.

Lemma lastMsgOf_snoc (sp : Speaker) (h : list TranscriptMessage)
    (m : TranscriptMessage) :
  lastMsgOf sp (h ++ [m]) =
  if Speaker_eqb (speaker m) sp then Some m else lastMsgOf sp h.
Proof. unfold lastMsgOf. rewrite rev_unit. reflexivity. Qed.

Lemma textsOf_snoc (sp : Speaker) (h : list TranscriptMessage)
    (m : TranscriptMessage) :
  textsOf sp (h ++ [m]) =
  textsOf sp h ++ (if Speaker_eqb (speaker m) sp then [msg_text m] else []).
Proof.
  unfold textsOf. rewrite List.filter_app, fmap_app. simpl.
  destruct (Speaker_eqb (speaker m) sp); reflexivity.
Qed.

Lemma last_textsOf (sp : Speaker) (h : list TranscriptMessage) :
  last (textsOf sp h) = msg_text <$> lastMsgOf sp h.
Proof. unfold textsOf. rewrite fmap_last, lastMsgOf_last. reflexivity. Qed.

Lemma noRepeat_snoc (ts : list string) (t : string) :
  noRepeat (ts ++ [t]) =
  noRepeat ts && match last ts with
                 | Some t' => negb (String.eqb t' t)
                 | None => true
                 end.
Proof.
  induction ts as [|a ts IH]; [reflexivity|].
  destruct ts as [|b ts].
  - simpl. rewrite andb_true_r. reflexivity.
  - change (noRepeat ((a :: b :: ts) ++ [t]))
      with (negb (String.eqb a b) && noRepeat ((b :: ts) ++ [t])).
    rewrite IH.
    change (noRepeat (a :: b :: ts))
      with (negb (String.eqb a b) && noRepeat (b :: ts)).
    change (last (a :: b :: ts)) with (last (b :: ts)).
    rewrite andb_assoc. reflexivity.
Qed.

(** Appending an entry keeps the history deduplicated exactly when its
    text differs from the last entry of the same speaker. *)
Lemma deduplicated_snoc (h : list TranscriptMessage) (m : TranscriptMessage) :
  deduplicated (h ++ [m]) =
  deduplicated h && match lastMsgOf (speaker m) h with
                    | Some x => negb (String.eqb (msg_text x) (msg_text m))
                    | None => true
                    end.
Proof.
  unfold deduplicated. rewrite !textsOf_snoc.
  destruct (speaker m) eqn:E; simpl; rewrite ?app_nil_r, noRepeat_snoc, last_textsOf.
  - destruct (lastMsgOf SpUser h); simpl;
      destruct (noRepeat (textsOf SpUser h)), (noRepeat (textsOf SpBot h));
      simpl; rewrite ?andb_true_r, ?andb_false_r; reflexivity.
  - destruct (lastMsgOf SpBot h); simpl;
      destruct (noRepeat (textsOf SpUser h)), (noRepeat (textsOf SpBot h));
      simpl; rewrite ?andb_true_r, ?andb_false_r; reflexivity.
Qed.

Lemma userHistoryEffect_deduplicated (now : nat) (p : Props) (l : Layout) :
  deduplicated (transcriptHistory l) = true ->
  deduplicated (transcriptHistory (userHistoryEffect now p l)) = true.
Proof.
  intros H. unfold userHistoryEffect.
  destruct (_ && _ && _); [|exact H].
  destruct (lastMsgOf SpUser (transcriptHistory l)) as [m|] eqn:E.
  - destruct (negb (String.eqb (msg_text m) (user (p_transcripts p)))) eqn:E2;
      [|exact H].
    simpl. rewrite deduplicated_snoc, H. simpl. rewrite E. exact E2.
  - simpl. rewrite deduplicated_snoc, H. simpl. rewrite E. reflexivity.
Qed.

Lemma botHistoryEffect_deduplicated (now : nat) (p : Props) (l : Layout) :
  deduplicated (transcriptHistory l) = true ->
  deduplicated (transcriptHistory (botHistoryEffect now p l)) = true.
Proof.
  intros H. unfold botHistoryEffect.
  destruct (_ && _ && _); [|exact H]. cbv zeta.
  change (transcriptHistory (setLastProcessedTts _ l)) with (transcriptHistory l).
  destruct (lastMsgOf SpBot (transcriptHistory l)) as [m|] eqn:E.
  - destruct (String.eqb (msg_text m) (bot (p_transcripts p))) eqn:E2; [exact H|].
    simpl. rewrite deduplicated_snoc, H. simpl. rewrite E, E2. reflexivity.
  - simpl. rewrite deduplicated_snoc, H. simpl. rewrite E. reflexivity.
Qed.

Lemma resetOnReadyEffect_deduplicated (p : Props) (l : Layout) :
  deduplicated (transcriptHistory l) = true ->
  deduplicated (transcriptHistory (resetOnReadyEffect p l)) = true.
Proof.
  intros H. unfold resetOnReadyEffect.
  destruct (TransportState_eqb _ _); [reflexivity | exact H].
Qed.

Lemma propEffects_deduplicated (now : nat) (p0 p : Props) (l : Layout) :
  deduplicated (transcriptHistory l) = true ->
  deduplicated (transcriptHistory (propEffects now p0 p l)) = true.
Proof.
  intros H. unfold propEffects. cbv zeta.
  set (l1 := if Bool.eqb (p_isUserSpeaking p0) (p_isUserSpeaking p) then l
             else speakingEdgeEffect p l).
  assert (H1 : deduplicated (transcriptHistory l1) = true).
  { subst l1. destruct (Bool.eqb _ _); [exact H|].
    destruct (speakingEdgeEffect_mode p l) as (_ & _ & -> & _). exact H. }
  clearbody l1.
  repeat match goal with
         | |- context [if ?c then _ else _] => destruct c
         end;
    auto using userHistoryEffect_deduplicated, botHistoryEffect_deduplicated,
               resetOnReadyEffect_deduplicated.
Qed.

Lemma step_deduplicated (w : World) (e : Event) :
  consistent w -> deduplicated (history w) = true ->
  deduplicated (history (step w e)) = true.
Proof.
  intros Hc H. destruct (step_history w e Hc) as (t & -> & _).
  apply propEffects_deduplicated, H.
Qed.

Lemma run_deduplicated (es : list Event) (w : World) :
  consistent w -> deduplicated (history w) = true ->
  deduplicated (history (run w es)) = true.
Proof.
  revert w. induction es as [|e es IH]; intros w Hc H; simpl; [exact H|].
  apply IH; [apply consistent_step, Hc | apply step_deduplicated; assumption].
Qed.

Lemma noRepeat_tail (t : string) (ts : list string) :
  noRepeat (t :: ts) = true -> noRepeat ts = true.
Proof.
  destruct ts as [|b ts]; [reflexivity|].
  change (noRepeat (t :: b :: ts)) with (negb (String.eqb t b) && noRepeat (b :: ts)).
  intros H. apply andb_true_iff in H. apply H.
Qed.

Lemma textsOf_cons (sp : Speaker) (m : TranscriptMessage)
    (h : list TranscriptMessage) :
  textsOf sp (m :: h) =
  if Speaker_eqb (speaker m) sp then msg_text m :: textsOf sp h else textsOf sp h.
Proof.
  unfold textsOf. simpl. destruct (Speaker_eqb (speaker m) sp); reflexivity.
Qed.

Lemma deduplicated_tail (m : TranscriptMessage) (h : list TranscriptMessage) :
  deduplicated (m :: h) = true -> deduplicated h = true.
Proof.
  unfold deduplicated. rewrite !textsOf_cons. intros H.
  apply andb_true_iff in H as [Hu Hb]. apply andb_true_iff. split.
  - destruct (Speaker_eqb (speaker m) SpUser); [eapply noRepeat_tail|]; eauto.
  - destruct (Speaker_eqb (speaker m) SpBot); [eapply noRepeat_tail|]; eauto.
Qed.

(** The per-speaker rule implies the rule on neighbours. *)
Lemma deduplicated_noAdjacentDuplicate (h : list TranscriptMessage) :
  deduplicated h = true -> noAdjacentDuplicate h = true.
Proof.
  induction h as [|a h IH]; [reflexivity|]. intros H.
  destruct h as [|b h]; [reflexivity|].
  change (noAdjacentDuplicate (a :: b :: h))
    with (negb (Speaker_eqb (speaker a) (speaker b)
                && String.eqb (msg_text a) (msg_text b))
          && noAdjacentDuplicate (b :: h)).
  rewrite (IH (deduplicated_tail a _ H)), andb_true_r.
  unfold deduplicated in H. rewrite !textsOf_cons in H.
  apply andb_true_iff in H as [Hu Hb].
  destruct (speaker a), (speaker b); simpl in *; try reflexivity.
  - apply andb_true_iff in Hu. apply Hu.
  - apply andb_true_iff in Hb. apply Hb.
Qed.

Lemma handleUserTranscript_final (a : AppState) (data : option TranscriptData)
    (u : string) :
  data_text data = Some u -> data_isFinal data = true ->
  handleUserTranscript a data =
  setIsUserSpeaking false
    (setStreamingUserTextRef ""
       (setStreamingUserText ""
          (setTranscripts {| user := u; bot := bot (transcripts a) |} a))).
Proof. unfold handleUserTranscript. intros -> ->. reflexivity. Qed.

Lemma handleUserTranscript_partial (a : AppState) (data : option TranscriptData)
    (u : string) :
  data_text data = Some u -> data_isFinal data = false ->
  handleUserTranscript a data =
  setIsUserSpeaking true (setStreamingUserTextRef u (setStreamingUserText u a)).
Proof. unfold handleUserTranscript. intros -> ->. reflexivity. Qed.

Lemma handleBotTtsText_text (a : AppState) (data : option TranscriptData)
    (b : string) :
  data_text data = Some b ->
  handleBotTtsText a data =
  if trim_nonempty b
  then setTranscripts {| user := user (transcripts a); bot := b |} a
  else a.
Proof. unfold handleBotTtsText. intros ->. reflexivity. Qed.

Lemma speakingEdge_or_not_history (b : bool) (p : Props) (l : Layout) :
  transcriptHistory (if b then l else speakingEdgeEffect p l) = transcriptHistory l
  /\ lastProcessedTts (if b then l else speakingEdgeEffect p l) = lastProcessedTts l.
Proof.
  destruct b; [auto|].
  destruct (speakingEdgeEffect_mode p l) as (_ & _ & -> & _ & ->). auto.
Qed.

(** The history after a final user transcript with a text: the effect
    for user transcripts is the only one that can touch it. *)
Lemma history_after_final_user (w : World) (data : option TranscriptData)
    (u : string) :
  consistent w -> data_text data = Some u -> data_isFinal data = true ->
  exists t l1,
    transcriptHistory l1 = history w
    /\ lastProcessedTts l1 = lastProcessedTts (layout w)
    /\ (history (step w (UserTranscript data)) = history w
        \/ history (step w (UserTranscript data)) =
           transcriptHistory
             (userHistoryEffect t
                (propsOf (step w (UserTranscript data))) l1))
    /\ lastProcessedTts (layout (step w (UserTranscript data)))
       = lastProcessedTts (layout w)
    /\ user (p_transcripts (propsOf (step w (UserTranscript data)))) = u
    /\ userSpeaking (step w (UserTranscript data)) = false.
Proof.
  intros Hc Ht Hf.
  destruct (step_history w (UserTranscript data) Hc) as (t & Hh & Hl).
  set (p' := propsOf (step w (UserTranscript data))) in *.
  assert (Hp' : p' = {| p_transcripts := {| user := u; bot := bot (transcripts (app w)) |};
                        p_isUserSpeaking := false;
                        p_transportState := transportState w |}).
  { subst p'. change (step w (UserTranscript data))
      with (render (withApp (handleUserTranscript (app w) data) w)).
    change (propsOf (render ?x)) with (propsOf x). unfold propsOf. simpl.
    rewrite (handleUserTranscript_final _ _ _ Ht Hf). reflexivity. }
  unfold propEffects in Hh, Hl. cbv zeta in Hh, Hl.
  set (l1 := if Bool.eqb (p_isUserSpeaking (propsOf w)) (p_isUserSpeaking p')
             then layout w else speakingEdgeEffect p' (layout w)) in *.
  destruct (speakingEdge_or_not_history
              (Bool.eqb (p_isUserSpeaking (propsOf w)) (p_isUserSpeaking p'))
              p' (layout w)) as [Hh1 Hl1].
  fold l1 in Hh1, Hl1.
  assert (Hbot : String.eqb (bot (p_transcripts (propsOf w))) (bot (p_transcripts p'))
                 = true).
  { rewrite Hp'. simpl. apply String.eqb_refl. }
  assert (Htr : TransportState_eqb (p_transportState (propsOf w)) (p_transportState p')
                = true).
  { rewrite Hp'. simpl. apply TransportState_eqb_refl. }
  rewrite Hbot, Htr in Hh, Hl.
  exists t, l1. split; [exact Hh1|]. split; [exact Hl1|].
  split; [|split; [|split]].
  - destruct (_ && _) in Hh; [left; rewrite Hh; exact Hh1 | right; exact Hh].
  - rewrite Hl. destruct (_ && _); [exact Hl1|].
    destruct (userHistoryEffect_frame t p' l1) as (_ & _ & -> & _). exact Hl1.
  - rewrite Hp'. reflexivity.
  - change (userSpeaking (step w (UserTranscript data)))
      with (p_isUserSpeaking p'). rewrite Hp'. reflexivity.
Qed.

Lemma userHistoryEffect_duplicate (t : nat) (p : Props) (l : Layout)
    (m : TranscriptMessage) :
  lastMsgOf SpUser (transcriptHistory l) = Some m ->
  msg_text m = user (p_transcripts p) ->
  userHistoryEffect t p l = l.
Proof.
  intros Hm Ht. unfold userHistoryEffect. rewrite Hm, Ht, String.eqb_refl.
  destruct (_ && _ && _); reflexivity.
Qed.

Lemma userHistoryEffect_cases (t : nat) (p : Props) (l : Layout) :
  transcriptHistory (userHistoryEffect t p l) = transcriptHistory l
  \/ transcriptHistory (userHistoryEffect t p l) =
     transcriptHistory l ++
       [ {| speaker := SpUser; msg_text := user (p_transcripts p); timestamp := t |} ].
Proof.
  unfold userHistoryEffect. destruct (_ && _ && _); [|auto].
  destruct (lastMsgOf SpUser _) as [m|]; [destruct (negb _)|]; auto.
Qed.

(** A final user transcript equal to the most recent user entry is not
    appended again. *)
Lemma final_user_duplicate_not_appended (w : World)
    (data : option TranscriptData) (u : string) (m : TranscriptMessage) :
  consistent w -> data_text data = Some u -> data_isFinal data = true ->
  lastMsgOf SpUser (history w) = Some m -> msg_text m = u ->
  history (step w (UserTranscript data)) = history w.
Proof.
  intros Hc Ht Hf Hm Hu.
  destruct (history_after_final_user w data u Hc Ht Hf)
    as (t & l1 & Hh1 & _ & [H|H] & _ & Hp & _); [exact H|].
  rewrite H, (userHistoryEffect_duplicate t _ l1 m); [exact Hh1 | |].
  - rewrite Hh1. exact Hm.
  - rewrite Hp. exact Hu.
Qed.

(** The history after an agent transcript with a text. *)
Lemma history_after_bot_text (w : World) (data : option TranscriptData)
    (b : string) :
  consistent w -> data_text data = Some b ->
  userSpeaking (step w (BotTtsText data)) = userSpeaking w
  /\ (history (step w (BotTtsText data)) = history w
      \/ trim_nonempty b = true
         /\ bot (transcripts (app w)) <> b
         /\ exists t,
              history (step w (BotTtsText data)) =
              transcriptHistory
                (botHistoryEffect t (propsOf (step w (BotTtsText data))) (layout w))
              /\ bot (p_transcripts (propsOf (step w (BotTtsText data)))) = b).
Proof.
  intros Hc Ht.
  destruct (step_history w (BotTtsText data) Hc) as (t & Hh & _).
  set (p' := propsOf (step w (BotTtsText data))) in *.
  assert (Hp' : p' = propsOf (withApp (handleBotTtsText (app w) data) w))
    by reflexivity.
  rewrite (handleBotTtsText_text _ _ _ Ht) in Hp'.
  change (userSpeaking (step w (BotTtsText data))) with (p_isUserSpeaking p').
  destruct (trim_nonempty b) eqn:Etrim.
  - assert (Hsp : p_isUserSpeaking p' = isUserSpeaking (app w))
      by (rewrite Hp'; reflexivity).
    assert (Hu : user (p_transcripts p') = user (transcripts (app w)))
      by (rewrite Hp'; reflexivity).
    assert (Htr : p_transportState p' = transportState w)
      by (rewrite Hp'; reflexivity).
    assert (Hb : bot (p_transcripts p') = b) by (rewrite Hp'; reflexivity).
    split; [exact Hsp|].
    unfold propEffects in Hh. cbv zeta in Hh.
    change (p_isUserSpeaking (propsOf w)) with (isUserSpeaking (app w)) in Hh.
    change (user (p_transcripts (propsOf w))) with (user (transcripts (app w))) in Hh.
    change (p_transportState (propsOf w)) with (transportState w) in Hh.
    change (bot (p_transcripts (propsOf w))) with (bot (transcripts (app w))) in Hh.
    rewrite Hsp, Hu, Htr, Hb in Hh.
    rewrite Bool_eqb_refl, String.eqb_refl, TransportState_eqb_refl in Hh.
    cbn [andb] in Hh.
    destruct (String.eqb_spec (bot (transcripts (app w))) b) as [E|E].
    + left. exact Hh.
    + right. split; [reflexivity|]. split; [exact E|]. exists t. auto.
  - assert (E : p' = propsOf w) by (rewrite Hp'; reflexivity).
    split; [rewrite E; reflexivity|]. left.
    rewrite Hh, E, propEffects_same. reflexivity.
Qed.

Lemma botHistoryEffect_cases (t : nat) (p : Props) (l : Layout) :
  transcriptHistory (botHistoryEffect t p l) = transcriptHistory l
  \/ (forall m, lastMsgOf SpBot (transcriptHistory l) = Some m ->
                msg_text m <> bot (p_transcripts p))
     /\ transcriptHistory (botHistoryEffect t p l) =
        transcriptHistory l ++
          [ {| speaker := SpBot; msg_text := bot (p_transcripts p); timestamp := t |} ].
Proof.
  unfold botHistoryEffect. destruct (_ && _ && _); [|auto]. cbv zeta.
  change (transcriptHistory (setLastProcessedTts _ l)) with (transcriptHistory l).
  destruct (lastMsgOf SpBot _) as [m|].
  - destruct (String.eqb_spec (msg_text m) (bot (p_transcripts p))); [auto|].
    right. split; [|reflexivity]. intros m' [= <-]. assumption.
  - right. split; [|reflexivity]. intros m' [=].
Qed.

(** An agent transcript equal to the most recent agent entry is not
    appended again. *)
Lemma bot_duplicate_not_appended (w : World)
    (data : option TranscriptData) (b : string) (m : TranscriptMessage) :
  consistent w -> data_text data = Some b ->
  lastMsgOf SpBot (history w) = Some m -> msg_text m = b ->
  history (step w (BotTtsText data)) = history w.
Proof.
  intros Hc Ht Hm Hb.
  destruct (history_after_bot_text w data b Hc Ht)
    as (_ & [H | (_ & _ & t & H & Hp)]); [exact H|].
  rewrite H.
  destruct (botHistoryEffect_cases t (propsOf (step w (BotTtsText data))) (layout w))
    as [E | [Hne _]]; [exact E|].
  exfalso. apply (Hne m Hm). rewrite Hp. exact Hb.
Qed.

(** An agent transcript that differs from the text last handed down,
    from the text last processed and from the most recent agent entry is
    appended. *)
Lemma bot_text_appended (w : World) (data : option TranscriptData) (b : string) :
  consistent w -> data_text data = Some b -> trim_nonempty b = true ->
  bot (transcripts (app w)) <> b ->
  lastProcessedTts (layout w) <> b ->
  (forall m, lastMsgOf SpBot (history w) = Some m -> msg_text m <> b) ->
  exists t,
    history (step w (BotTtsText data)) =
    history w ++ [ {| speaker := SpBot; msg_text := b; timestamp := t |} ].
Proof.
  intros Hc Ht Htrim Hbot Hlast Hm.
  destruct (step_history w (BotTtsText data) Hc) as (t & Hh & _).
  set (p' := propsOf (step w (BotTtsText data))) in *.
  assert (Hp' : p' = propsOf (withApp (handleBotTtsText (app w) data) w))
    by reflexivity.
  rewrite (handleBotTtsText_text _ _ _ Ht), Htrim in Hp'.
  exists t. rewrite Hh, Hp'. unfold propEffects, propsOf. simpl.
  rewrite Bool_eqb_refl, String.eqb_refl, TransportState_eqb_refl. simpl.
  destruct (String.eqb_spec (bot (transcripts (app w))) b) as [E|_];
    [contradiction|].
  unfold botHistoryEffect. simpl. rewrite Htrim.
  assert (Hne : String.eqb b "" = false).
  { destruct b; [discriminate Htrim | reflexivity]. }
  rewrite Hne. simpl.
  destruct (String.eqb_spec b (lastProcessedTts (layout w))) as [E|_];
    [symmetry in E; contradiction|]. simpl.
  fold (history w).
  destruct (lastMsgOf SpBot (history w)) as [m|] eqn:Em; [|reflexivity].
  destruct (String.eqb_spec (msg_text m) b) as [E|_]; [|reflexivity].
  exfalso. exact (Hm m eq_refl E).
Qed.

(** C2: along every run of events the history has no two consecutive
    entries of one speaker with the same text, neighbours or not; a
    final user transcript equal to the most recent user entry and an
    agent transcript equal to the most recent agent entry are not
    appended again; repeats that are not consecutive are appended: the
    agent texts hello, bye, hello give three entries, hello twice gives
    one. *)
Theorem transcript_history_has_no_consecutive_duplicates (es : list Event) :
  let w := run initialWorld es in
  deduplicated (history w) = true
  /\ noAdjacentDuplicate (history w) = true
  /\ (forall data u m,
        data_text data = Some u -> data_isFinal data = true ->
        lastMsgOf SpUser (history w) = Some m -> msg_text m = u ->
        history (step w (UserTranscript data)) = history w)
  /\ (forall data b m,
        data_text data = Some b ->
        lastMsgOf SpBot (history w) = Some m -> msg_text m = b ->
        history (step w (BotTtsText data)) = history w)
  /\ entries (history (run initialWorld
                         [BotTtsText (transcriptText "hello");
                          BotTtsText (transcriptText "bye");
                          BotTtsText (transcriptText "hello")]))
     = [(SpBot, "hello"); (SpBot, "bye"); (SpBot, "hello")]
  /\ entries (history (run initialWorld
                         [BotTtsText (transcriptText "hello");
                          BotTtsText (transcriptText "hello")]))
     = [(SpBot, "hello")].
Proof.
  intros w. pose proof (consistent_reachable es) as Hc. fold w in Hc.
  assert (Hd : deduplicated (history w) = true).
  { apply run_deduplicated; [apply consistent_initialWorld | reflexivity]. }
  split; [exact Hd|].
  split; [apply deduplicated_noAdjacentDuplicate, Hd|].
  split; [intros data u m; apply final_user_duplicate_not_appended, Hc|].
  split; [intros data b m; apply bot_duplicate_not_appended, Hc|].
  split; reflexivity.
Qed.

Lemma transcript_history_has_no_consecutive_duplicates_witness :
  let es := [UserStartedSpeaking; UserTranscript (finalTranscript "yes");
             BotTtsText (transcriptText "sure?")] in
  let w := run initialWorld es in
  entries (history w) = [(SpUser, "yes"); (SpBot, "sure?")]
  /\ history (step w (UserTranscript (finalTranscript "yes"))) = history w
  /\ history (step w (BotTtsText (transcriptText "sure?"))) = history w.
Proof.
  intros es w.
  destruct (transcript_history_has_no_consecutive_duplicates es)
    as (_ & _ & Huser & Hbot & _).
  fold w in Huser, Hbot.
  split; [reflexivity|]. split.
  - apply (Huser (finalTranscript "yes") "yes"
             {| speaker := SpUser; msg_text := "yes"; timestamp := 0 |});
      reflexivity.
  - apply (Hbot (transcriptText "sure?") "sure?"
             {| speaker := SpBot; msg_text := "sure?"; timestamp := 0 |});
      reflexivity.
Defined.

(** ** The interaction mode *)

Lemma lastIsBot_snoc (h : list TranscriptMessage) (m : TranscriptMessage) :
  lastIsBot (h ++ [m]) = Speaker_eqb (speaker m) SpBot.
Proof. unfold lastIsBot. rewrite last_snoc. reflexivity. Qed.

(** The canonical turn from the fresh application. *)
Lemma canonical_turn (du db : option TranscriptData) (u b : string) :
  data_text du = Some u -> data_isFinal du = true ->
  data_text db = Some b -> trim_nonempty b = true ->
  let w1 := step initialWorld UserStartedSpeaking in
  let w2 := step w1 (UserTranscript du) in
  let w3 := step w2 (BotTtsText db) in
  [mode initialWorld; mode w1; mode w2; mode w3] = [idle; listening; thinking; idle].
Proof.
  intros Hu Hf Hb Htrim w1 w2 w3.
  assert (Hc1 : consistent w1) by apply consistent_step, consistent_initialWorld.
  assert (Hc2 : consistent w2) by apply consistent_step, Hc1.
  destruct (history_after_final_user w1 du u Hc1 Hu Hf)
    as (t & l1 & Hh1 & _ & Hh2 & Hl2 & _ & Hs2).
  fold w2 in Hh2, Hl2, Hs2.
  change (history w1) with (@nil TranscriptMessage) in Hh1, Hh2.
  change (lastProcessedTts (layout w1)) with "" in Hl2.
  assert (Hcases : history w2 = [] \/ exists m, history w2 = [m] /\ speaker m = SpUser).
  { destruct Hh2 as [H|H]; [left; exact H|].
    destruct (userHistoryEffect_cases t (propsOf w2) l1) as [E|E];
      rewrite Hh1 in E; rewrite <- H in E; [left; exact E|].
    right. eexists. split; [exact E | reflexivity]. }
  assert (Hm2 : mode w2 = thinking).
  { unfold w2. rewrite (step_mode w1 (UserTranscript du) Hc1). fold w2.
    unfold edgeMode, risingEdge, fallingEdge. rewrite Hs2.
    change (userSpeaking w1) with true. cbn [negb andb].
    unfold settleMode.
    destruct Hcases as [-> | (m & -> & Hm)]; [reflexivity|].
    unfold lastIsBot. simpl. rewrite Hm. reflexivity. }
  assert (Hbot2 : bot (transcripts (app w2)) = "").
  { unfold w2. change (step w1 (UserTranscript du))
      with (render (withApp (handleUserTranscript (app w1) du) w1)).
    change (app (render ?x)) with (app x). simpl.
    rewrite (handleUserTranscript_final _ _ _ Hu Hf). reflexivity. }
  assert (Hne : b <> "") by (intros ->; discriminate Htrim).
  destruct (bot_text_appended w2 db b Hc2 Hb Htrim) as [t3 Hh3].
  { rewrite Hbot2. congruence. }
  { rewrite Hl2. congruence. }
  { intros m Hm. exfalso.
    destruct Hcases as [E | (x & E & Hx)]; rewrite E in Hm;
      unfold lastMsgOf in Hm; simpl in Hm; [discriminate|].
    rewrite Hx in Hm. discriminate. }
  fold w3 in Hh3.
  destruct (history_after_bot_text w2 db b Hc2 Hb) as [Hs3 _]. fold w3 in Hs3.
  assert (Hm3 : mode w3 = idle).
  { unfold w3. rewrite (step_mode w2 (BotTtsText db) Hc2). fold w3.
    unfold edgeMode, risingEdge, fallingEdge. rewrite Hs3, Hs2.
    cbn [negb andb]. rewrite Hm2, Hh3. unfold settleMode.
    rewrite lastIsBot_snoc. reflexivity. }
  rewrite Hm2, Hm3. reflexivity.
Qed.

(** C3, as stated, fails: after the agent has said something, a user
    turn that ends without a new entry (here the safety timeout fires with
    no partial text) makes a falling edge, and the mode comes to rest on
    idle, not thinking, although no agent entry was appended. *)
Lemma falling_edge_can_end_idle :
  let w := run initialWorld [BotTtsText (transcriptText "hi"); UserStartedSpeaking] in
  let w' := step w (Elapse 5000) in
  mode w = listening
  /\ fallingEdge w w' = true
  /\ history w' = history w
  /\ mode w' = idle
  /\ mode w' <> thinking.
Proof. vm_compute. repeat split; discriminate. Qed.

(** C3, amended: the mode is driven by the edges of user speaking and by
    the history, without timers of its own.  From any state a rising edge
    sets it to listening.  A falling edge sets it to thinking, which
    gives way to idle at once if the history then ends with an agent
    entry.  Without an edge, thinking becomes idle when an agent entry
    is appended, and otherwise the mode stays as it is.  From the fresh
    application the events user-speaking-started, final user transcript,
    agent transcript drive it idle, listening, thinking, idle. *)
Theorem interaction_mode_follows_edges_and_history (es : list Event) (e : Event) :
  let w := run initialWorld es in
  let w' := step w e in
  (risingEdge w w' = true -> mode w' = listening)
  /\ (fallingEdge w w' = true ->
      mode w' = if lastIsBot (history w') then idle else thinking)
  /\ (risingEdge w w' = false -> fallingEdge w w' = false ->
      mode w = thinking ->
      (exists m, history w' = history w ++ [m] /\ speaker m = SpBot) ->
      mode w' = idle)
  /\ (risingEdge w w' = false -> fallingEdge w w' = false ->
      mode w <> thinking \/ lastIsBot (history w') = false ->
      mode w' = mode w)
  /\ (forall du db u b,
        data_text du = Some u -> data_isFinal du = true ->
        data_text db = Some b -> trim_nonempty b = true ->
        let w1 := step initialWorld UserStartedSpeaking in
        let w2 := step w1 (UserTranscript du) in
        let w3 := step w2 (BotTtsText db) in
        [mode initialWorld; mode w1; mode w2; mode w3]
        = [idle; listening; thinking; idle]).
Proof.
  intros w w'. pose proof (consistent_reachable es) as Hc. fold w in Hc.
  pose proof (step_mode w e Hc) as Hm. fold w' in Hm.
  unfold edgeMode, settleMode in Hm.
  split; [|split; [|split; [|split]]].
  - intros Hr. rewrite Hm, Hr. reflexivity.
  - intros Hf. rewrite Hm, Hf.
    assert (Hr : risingEdge w w' = false).
    { unfold risingEdge, fallingEdge in *.
      destruct (userSpeaking w); [reflexivity | discriminate Hf]. }
    rewrite Hr. reflexivity.
  - intros Hr Hf Hth (m & Hh & Hs). rewrite Hm, Hr, Hf, Hth, Hh, lastIsBot_snoc, Hs.
    reflexivity.
  - intros Hr Hf Hcase. rewrite Hm, Hr, Hf.
    destruct Hcase as [Hn | Hl].
    + destruct (mode w); try reflexivity. contradiction.
    + rewrite Hl, andb_false_r. reflexivity.
  - intros du db u b. apply canonical_turn.
Qed.

Lemma interaction_mode_follows_edges_and_history_witness :
  let w := run initialWorld [UserStartedSpeaking] in
  let w' := step w (UserTranscript (finalTranscript "hello")) in
  let w'' := step w' (BotTtsText (transcriptText "hi there")) in
  mode w = listening /\ mode w' = thinking /\ mode w'' = idle.
Proof.
  intros w w' w''.
  destruct (interaction_mode_follows_edges_and_history [] UserStartedSpeaking)
    as (Hrise & _).
  destruct (interaction_mode_follows_edges_and_history
              [UserStartedSpeaking] (UserTranscript (finalTranscript "hello")))
    as (_ & Hfall & _).
  destruct (interaction_mode_follows_edges_and_history
              [UserStartedSpeaking; UserTranscript (finalTranscript "hello")]
              (BotTtsText (transcriptText "hi there")))
    as (_ & _ & Hbot & _).
  split; [apply Hrise; reflexivity|].
  split; [apply Hfall; reflexivity|].
  apply Hbot; try reflexivity.
  exists {| speaker := SpBot; msg_text := "hi there"; timestamp := 0 |}.
  split; vm_compute; reflexivity.
Defined.

(** C8, as stated, fails: the mode is thinking when the first session
    ends, and still thinking when the channel is ready again. *)
Lemma interaction_mode_survives_reconnect :
  let session :=
    [TransportStateChange connecting; Connected; TransportStateChange ready;
     UserStartedSpeaking; UserTranscript (finalTranscript "tell me about speech")] in
  let reconnect :=
    [TransportStateChange closing; Disconnected; TransportStateChange disconnected;
     TransportStateChange connecting; Connected; TransportStateChange ready] in
  let w := run initialWorld (session ++ reconnect) in
  mode (run initialWorld session) = thinking
  /\ transportState w = ready
  /\ history w = []
  /\ mode w = thinking
  /\ mode w <> idle.
Proof. vm_compute. repeat split; discriminate. Qed.

Lemma step_ready_history (w : World) :
  consistent w -> transportState w <> ready ->
  history (step w (TransportStateChange ready)) = []
  /\ lastProcessedTts (layout (step w (TransportStateChange ready))) = "".
Proof.
  intros Hc Hn.
  destruct (step_history w (TransportStateChange ready) Hc) as (t & -> & ->).
  change (propsOf (step w (TransportStateChange ready)))
    with {| p_transcripts := transcripts (app w);
            p_isUserSpeaking := isUserSpeaking (app w);
            p_transportState := ready |}.
  unfold propEffects, propsOf. simpl.
  rewrite Bool_eqb_refl, !String.eqb_refl. simpl.
  destruct (TransportState_eqb (transportState w) ready) eqn:E.
  - apply TransportState_eqb_eq in E. contradiction.
  - split; reflexivity.
Qed.

(** C8, amended: on every transition of the channel to ready the
    transcript history is reset to empty and the last processed agent
    text is cleared; the interaction mode is left as it was, so it is
    carried across reconnects. *)
Theorem ready_resets_history_and_keeps_mode (es : list Event) :
  let w := run initialWorld es in
  transportState w <> ready ->
  let w' := step w (TransportStateChange ready) in
  history w' = []
  /\ lastProcessedTts (layout w') = ""
  /\ mode w' = mode w
  /\ app w' = app w.
Proof.
  intros w Hn w'. pose proof (consistent_reachable es) as Hc. fold w in Hc.
  destruct (step_ready_history w Hc Hn) as [Hh Hl]. fold w' in Hh, Hl.
  split; [exact Hh|]. split; [exact Hl|]. split; [|reflexivity].
  unfold w'. rewrite (step_mode w _ Hc). fold w'. rewrite Hh.
  unfold edgeMode, risingEdge, fallingEdge, settleMode.
  change (userSpeaking w') with (userSpeaking w).
  destruct (userSpeaking w); simpl; rewrite andb_false_r; reflexivity.
Qed.

Lemma ready_resets_history_and_keeps_mode_witness :
  let es := [TransportStateChange connecting; Connected; TransportStateChange ready;
             BotTtsText (transcriptText "welcome"); UserStartedSpeaking;
             TransportStateChange closing; Disconnected] in
  let w := run initialWorld es in
  let w' := step w (TransportStateChange ready) in
  entries (history w) = [(SpBot, "welcome")]
  /\ history w' = [] /\ mode w' = mode w.
Proof.
  intros es w w'. split; [reflexivity|].
  destruct (ready_resets_history_and_keeps_mode es) as (Hh & _ & Hm & _).
  - discriminate.
  - split; [exact Hh | exact Hm].
Defined.

(** ** The safety timeout *)

Lemma step_dispatch (w : World) (e : Event) :
  isElapse e = false ->
  app (step w e) = dispatch (app w) e
  /\ now (step w e) = now w
  /\ transportState (step w e) =
     match e with TransportStateChange s => s | _ => transportState w end
  /\ safetyTimeout (step w e) =
     match timeoutDep w with
     | Some b =>
         if Bool.eqb b (isUserSpeaking (dispatch (app w) e)) then safetyTimeout w
         else if isUserSpeaking (dispatch (app w) e)
              then Some (now w + SAFETY_TIMEOUT_MS)%nat else None
     | None =>
         if isUserSpeaking (dispatch (app w) e)
         then Some (now w + SAFETY_TIMEOUT_MS)%nat else None
     end.
Proof.
  destruct e; try discriminate; intros _; repeat split;
    unfold step, render, safetyTimeoutEffect; simpl;
    destruct (timeoutDep w) as [b|]; try reflexivity;
    destruct (Bool.eqb b _); reflexivity.
Qed.

Lemma handleServerMessage_frame (a : AppState) (message : JsVal) :
  isUserSpeaking (handleServerMessage a message) = isUserSpeaking a
  /\ streamingUserTextRef (handleServerMessage a message) = streamingUserTextRef a
  /\ transcripts (handleServerMessage a message) = transcripts a.
Proof. unfold handleServerMessage. destruct (js_is_str _ _); auto. Qed.

Lemma handleBotTtsText_frame (a : AppState) (data : option TranscriptData) :
  isUserSpeaking (handleBotTtsText a data) = isUserSpeaking a
  /\ streamingUserTextRef (handleBotTtsText a data) = streamingUserTextRef a
  /\ user (transcripts (handleBotTtsText a data)) = user (transcripts a).
Proof.
  unfold handleBotTtsText. destruct (data_text data) as [t|]; auto.
  destruct (trim_nonempty t); auto.
Qed.

(** An event that finalizes the turn clears the speaking flag. *)
Lemma finalizes_clears_speaking (a : AppState) (e : Event) :
  finalizes e = true -> isUserSpeaking (dispatch a e) = false.
Proof.
  destruct e; simpl; try discriminate; try reflexivity.
  unfold handleUserTranscript.
  destruct (data_text data) as [t|]; [|discriminate]. intros ->. reflexivity.
Qed.

(** An event that does not finalize the turn keeps the speaking flag
    set, keeps the user transcript, and leaves in the ref the latest
    partial text. *)
Lemma keepsTurn_dispatch (a : AppState) (e : Event) :
  keepsTurn e = true ->
  (isUserSpeaking a = true -> isUserSpeaking (dispatch a e) = true)
  /\ streamingUserTextRef (dispatch a e)
     = lastPartialText (streamingUserTextRef a) [e]
  /\ user (transcripts (dispatch a e)) = user (transcripts a).
Proof.
  unfold keepsTurn. destruct e; simpl; try discriminate; auto.
  - destruct (handleServerMessage_frame a message) as (-> & -> & ->). auto.
  - unfold handleUserTranscript.
    destruct (data_text data) as [t|]; [|auto].
    destruct (data_isFinal data); [discriminate|]. simpl. auto.
  - destruct (handleBotTtsText_frame a data) as (-> & -> & ->). auto.
Qed.

Lemma lastPartialText_cons (start : string) (e : Event) (es : list Event) :
  lastPartialText start (e :: es) = lastPartialText (lastPartialText start [e]) es.
Proof. reflexivity. Qed.

Lemma elapsed_cons (e : Event) (es : list Event) :
  elapsed (e :: es) = (elapsed [e] + elapsed es)%nat.
Proof. destruct e; simpl; lia. Qed.

(** One event of a turn that goes on, before the deadline. *)
Lemma turn_continues (w : World) (e : Event) (deadline : nat) :
  consistent w -> userSpeaking w = true -> safetyTimeout w = Some deadline ->
  keepsTurn e = true -> (now w + elapsed [e] < deadline)%nat ->
  userSpeaking (step w e) = true
  /\ safetyTimeout (step w e) = Some deadline
  /\ now (step w e) = (now w + elapsed [e])%nat
  /\ streamingUserTextRef (app (step w e))
     = lastPartialText (streamingUserTextRef (app w)) [e]
  /\ user (transcripts (app (step w e))) = user (transcripts (app w)).
Proof.
  intros Hc Hsp Hto Hk Hlt. pose proof Hc as (_ & _ & _ & Hd & _).
  destruct (isElapse e) eqn:El.
  - destruct e; try discriminate. simpl in Hlt. simpl step. rewrite Hto.
    destruct (Nat.leb_spec deadline (now w + ms)) as [H|_]; [lia|].
    simpl. repeat split; auto; lia.
  - destruct (step_dispatch w e El) as (Ha & Hn & _ & Ht).
    destruct (keepsTurn_dispatch (app w) e Hk) as (Hs' & Hr & Hu).
    assert (He : elapsed [e] = 0%nat)
      by (destruct e; try discriminate; reflexivity).
    unfold userSpeaking in *.
    rewrite Ha, Hn, Ht, Hd, Hr, Hu, Hsp, (Hs' Hsp), He, Nat.add_0_r.
    simpl. repeat split; auto.
Qed.

Lemma turn_continues_run (during : list Event) (w : World) (deadline : nat) :
  consistent w -> userSpeaking w = true -> safetyTimeout w = Some deadline ->
  forallb keepsTurn during = true -> (now w + elapsed during < deadline)%nat ->
  userSpeaking (run w during) = true
  /\ safetyTimeout (run w during) = Some deadline
  /\ now (run w during) = (now w + elapsed during)%nat
  /\ streamingUserTextRef (app (run w during))
     = lastPartialText (streamingUserTextRef (app w)) during
  /\ user (transcripts (app (run w during))) = user (transcripts (app w)).
Proof.
  revert w. induction during as [|e es IH]; intros w Hc Hsp Hto Hk Hlt.
  - simpl. repeat split; auto.
  - simpl in Hk. apply andb_true_iff in Hk as [Hke Hkes].
    rewrite elapsed_cons in Hlt.
    destruct (turn_continues w e deadline Hc Hsp Hto Hke) as (Hs1 & Ht1 & Hn1 & Hr1 & Hu1);
      [lia|].
    destruct (IH (step w e) (consistent_step w e Hc) Hs1 Ht1 Hkes)
      as (Hs2 & Ht2 & Hn2 & Hr2 & Hu2); [lia|].
    change (run w (e :: es)) with (run (step w e) es).
    rewrite Hs2, Ht2, Hn2, Hr2, Hu2, Hn1, Hr1, Hu1, (elapsed_cons e es),
      (lastPartialText_cons _ e es).
    repeat split; auto; lia.
Qed.

(** A rising edge arms the timeout, five seconds ahead. *)
Lemma rising_edge_arms_timeout (w : World) (e : Event) :
  consistent w -> userSpeaking w = false -> userSpeaking (step w e) = true ->
  safetyTimeout (step w e) = Some (now w + SAFETY_TIMEOUT_MS)%nat
  /\ now (step w e) = now w
  /\ keepsTurn e = true
  /\ app (step w e) = dispatch (app w) e.
Proof.
  intros Hc Hsp Hsp'. pose proof Hc as (_ & _ & _ & Hd & Ht).
  unfold userSpeaking in *.
  destruct (isElapse e) eqn:El.
  - exfalso. destruct e; try discriminate. simpl in Hsp'.
    unfold timeoutConsistent in Ht.
    destruct (safetyTimeout w) as [d|]; [destruct Ht; congruence|].
    simpl in Hsp'. congruence.
  - destruct (step_dispatch w e El) as (Ha & Hn & _ & Hto).
    rewrite Ha in Hsp'. rewrite Hto, Hd, Hsp, Hsp', Hn, Ha. simpl.
    repeat split; auto. unfold keepsTurn.
    destruct (finalizes e) eqn:Ef; [|reflexivity].
    rewrite (finalizes_clears_speaking (app w) e Ef) in Hsp'. discriminate.
Qed.

(** The deadline passes: the callback of the timeout runs. *)
Lemma timeout_fires (w : World) (deadline ms : nat) :
  consistent w -> safetyTimeout w = Some deadline ->
  (deadline <= now w + ms)%nat ->
  app (step w (Elapse ms)) = safetyTimeoutCallback (app w)
  /\ safetyTimeout (step w (Elapse ms)) = None
  /\ now (step w (Elapse ms)) = (now w + ms)%nat.
Proof.
  intros Hc Hto Hle. pose proof Hc as (_ & _ & _ & Hd & Ht).
  unfold timeoutConsistent in Ht. rewrite Hto in Ht. destruct Ht as (Hsp & _).
  simpl step. rewrite Hto.
  destruct (Nat.leb_spec deadline (now w + ms)) as [_|H]; [|lia].
  split; [reflexivity|]. split; [|reflexivity].
  unfold render, safetyTimeoutEffect. simpl.
  rewrite Hd, Hsp, (proj1 (safetyTimeoutCallback_clears (app w))). reflexivity.
Qed.

Lemma forallb_take {A : Type} (f : A -> bool) (n : nat) (l : list A) :
  forallb f l = true -> forallb f (take n l) = true.
Proof.
  revert n. induction l as [|x l IH]; intros [|n] H; simpl in *; auto.
  apply andb_true_iff in H as [-> H]. simpl. auto.
Qed.

Lemma elapsed_take (n : nat) (es : list Event) :
  (elapsed (take n es) <= elapsed es)%nat.
Proof.
  revert n. induction es as [|e es IH]; intros [|n]; simpl; try lia.
  specialize (IH n). destruct e; simpl; lia.
Qed.

(** C5 fails on the transcript: from the event that sets the speaking
    flag, if the events of the next five seconds bring no finalization,
    the flag stays set all that time, and when the five seconds are over
    the store clears the streaming text and its ref and sets the speaking
    flag to false; but the user transcript it leaves is the empty string
    whenever there was a partial text, not that text: the queued updater
    reads the ref after the callback cleared it. *)
Theorem safety_timeout_drops_partial_text
    (es : list Event) (e : Event) (during : list Event) (ms : nat) :
  let w0 := run initialWorld es in
  let w1 := step w0 e in
  let w2 := run w1 during in
  let w3 := step w2 (Elapse ms) in
  let partial := lastPartialText (streamingUserTextRef (app w0)) (e :: during) in
  userSpeaking w0 = false -> userSpeaking w1 = true ->
  forallb keepsTurn during = true ->
  (elapsed during < SAFETY_TIMEOUT_MS)%nat ->
  (SAFETY_TIMEOUT_MS <= elapsed during + ms)%nat ->
  (forall n, userSpeaking (run w1 (take n during)) = true)
  /\ streamingUserTextRef (app w2) = partial
  /\ userSpeaking w3 = false
  /\ streamingUserText (app w3) = ""
  /\ streamingUserTextRef (app w3) = ""
  /\ user (transcripts (app w3)) =
       (if String.eqb partial "" then user (transcripts (app w1)) else "")
  /\ user (transcripts (safetyTimeoutCallbackEager (app w2))) =
       (if String.eqb partial "" then user (transcripts (app w1)) else partial)
  /\ safetyTimeout w3 = None.
Proof.
  intros w0 w1 w2 w3 partial Hs0 Hs1 Hk Hlt Hge.
  pose proof (consistent_reachable es) as Hc0. fold w0 in Hc0.
  assert (Hc1 : consistent w1) by apply consistent_step, Hc0.
  destruct (rising_edge_arms_timeout w0 e Hc0 Hs0 Hs1) as (Hto1 & Hn1 & Hke & Ha1).
  fold w1 in Hto1, Hn1, Ha1.
  destruct (keepsTurn_dispatch (app w0) e Hke) as (_ & Hr1 & _).
  rewrite <- Ha1 in Hr1.
  split.
  { intros n.
    apply (turn_continues_run (take n during) w1 _ Hc1 Hs1 Hto1).
    - apply forallb_take, Hk.
    - pose proof (elapsed_take n during). lia. }
  destruct (turn_continues_run during w1 _ Hc1 Hs1 Hto1 Hk)
    as (Hs2 & Hto2 & Hn2 & Hr2 & Hu2); [lia|].
  fold w2 in Hs2, Hto2, Hn2, Hr2, Hu2.
  assert (Hc2 : consistent w2) by apply consistent_run, Hc1.
  destruct (timeout_fires w2 _ ms Hc2 Hto2) as (Ha3 & Hto3 & _); [lia|].
  fold w3 in Ha3, Hto3.
  assert (Hpartial : streamingUserTextRef (app w2) = partial).
  { subst partial. rewrite lastPartialText_cons, <- Hr1. exact Hr2. }
  split; [exact Hpartial|].
  unfold userSpeaking. rewrite Ha3.
  unfold safetyTimeoutCallback, safetyTimeoutCallbackEager.
  rewrite Hpartial.
  destruct (String.eqb partial ""); simpl; repeat split; auto.
Qed.

Lemma safety_timeout_drops_partial_text_witness :
  let w := run initialWorld
             [UserStartedSpeaking; UserTranscript (partialTranscript "tell me");
              Elapse 3000; BotStartedSpeaking; Elapse 2000] in
  userSpeaking w = false
  /\ streamingUserText (app w) = ""
  /\ user (transcripts (app w)) = ""
  /\ history w = [].
Proof.
  destruct (safety_timeout_drops_partial_text [] UserStartedSpeaking
              [UserTranscript (partialTranscript "tell me"); Elapse 3000;
               BotStartedSpeaking] 2000)
    as (_ & _ & Hs & Ht & _ & Hu & _);
    [ vm_compute; reflexivity | vm_compute; reflexivity | vm_compute; reflexivity
    | vm_compute; lia | vm_compute; lia | ].
  intros w. split; [exact Hs|]. split; [exact Ht|]. split; [exact Hu|].
  vm_compute. reflexivity.
Defined.

(** ** Events that change nothing *)

Lemma withApp_same (w : World) : withApp (app w) w = w.
Proof. destruct w; reflexivity. Qed.

(** A render with nothing changed leaves the application as it is. *)
Lemma render_idle (w : World) : consistent w -> render w = w.
Proof.
  intros (Hs & Hq & Hp & Hd & _).
  pose proof (render_layout w (propsOf w) Hs Hq Hp) as Hl.
  rewrite propEffects_same, (quiesce_quiet _ Hq), (finish_stable _ _ Hs) in Hl.
  pose proof (render_timeout w _ Hd) as Hto. rewrite Bool_eqb_refl in Hto.
  destruct (render_frame w) as (Ha & Htr & Hn & _ & Hdep).
  rewrite <- Hd in Hdep.
  destruct (render w) as [a l tr n to td], w as [a0 l0 tr0 n0 to0 td0].
  simpl in *. congruence.
Qed.

(** C10: a user transcript whose text is empty or absent leaves the whole
    store as it was, final or not: no transcript is recorded, and the
    streaming text, its ref and the speaking flag keep their values; the
    layout and the pending timeout stay as they are too. *)
Theorem empty_user_transcript_changes_nothing
    (a : AppState) (data : option TranscriptData) :
  textEmptyOrAbsent data ->
  handleUserTranscript a data = a
  /\ forall es,
       step (run initialWorld es) (UserTranscript data) = run initialWorld es.
Proof.
  intros H.
  assert (Hh : forall b, handleUserTranscript b data = b).
  { intros b. unfold handleUserTranscript. rewrite (data_text_empty data H).
    reflexivity. }
  split; [apply Hh|]. intros es.
  change (step ?w (UserTranscript data))
    with (render (withApp (handleUserTranscript (app w) data) w)).
  rewrite Hh, withApp_same. apply render_idle, consistent_reachable.
Qed.

Lemma empty_user_transcript_changes_nothing_witness :
  let speaking := handleUserTranscript initialApp (partialTranscript "hel") in
  handleUserTranscript speaking (Some {| text := Some ""; final := Some true |})
  = speaking.
Proof.
  intros speaking.
  apply (empty_user_transcript_changes_nothing speaking
           (Some {| text := Some ""; final := Some true |})).
  simpl. right. reflexivity.
Defined.

(** * Further properties of the store *)

(** ** State updates compose *)

Lemma handleServerMessage_absorbs (a : AppState) (m m' : JsVal) :
  isStateUpdate m' = true ->
  handleServerMessage (handleServerMessage a m) m' = handleServerMessage a m'.
Proof.
  intros H'. rewrite !(handleServerMessage_update _ m' H').
  destruct (isStateUpdate m) eqn:E.
  - rewrite (handleServerMessage_update a m E). reflexivity.
  - rewrite (handleServerMessage_other a m E). reflexivity.
Qed.

(** X1: The store after any sequence of server messages is the store after
    the latest state update among them alone: a snapshot replaces what
    earlier snapshots left, and messages of other types leave no trace. *)
Theorem latest_state_update_wins (a : AppState) (messages : list JsVal) :
  fold_left handleServerMessage messages a =
  match lastStateUpdate messages with
  | Some m => handleServerMessage a m
  | None => a
  end.
Proof.
  unfold lastStateUpdate.
  induction messages as [|x messages IH] using rev_ind; [reflexivity|].
  rewrite fold_left_app, List.filter_app. simpl.
  destruct (isStateUpdate x) eqn:E.
  - rewrite last_snoc, IH.
    destruct (last (List.filter isStateUpdate messages)) as [m|];
      [apply handleServerMessage_absorbs, E | reflexivity].
  - rewrite app_nil_r, IH. apply handleServerMessage_other, E.
Qed.

(** ** Events that only touch the store *)

Lemma propsOf_withApp (a : AppState) (w : World) :
  transcripts a = transcripts (app w) ->
  isUserSpeaking a = isUserSpeaking (app w) ->
  propsOf (withApp a w) = propsOf w.
Proof. unfold propsOf. simpl. intros -> ->. reflexivity. Qed.

(** A handler that leaves the transcripts and the speaking flag alone
    triggers no effect: the rest of the application stays as it is. *)
Lemma render_store_only (a : AppState) (w : World) :
  consistent w ->
  transcripts a = transcripts (app w) ->
  isUserSpeaking a = isUserSpeaking (app w) ->
  render (withApp a w) = withApp a w.
Proof.
  intros Hc Ht Hs. apply render_idle.
  destruct Hc as (Hst & Hq & Hp & Hd & Hto).
  unfold consistent. rewrite (propsOf_withApp a w Ht Hs).
  split; [exact Hst|]. split; [exact Hq|]. simpl.
  rewrite Hs. split; [exact Hp|]. split; [exact Hd|].
  apply timeoutConsistent_withApp; [exact Hto | symmetry; exact Hs].
Qed.

(** X2: A server message changes the conversation state of the store and
    nothing else in the application: transcripts, flags, history, mode,
    clock and pending timeout stay; a message that is not a state
    update changes nothing at all. *)
Theorem server_message_touches_course_state_only
    (es : list Event) (message : JsVal) :
  let w := run initialWorld es in
  let w' := step w (ServerMessage message) in
  w' = withApp (handleServerMessage (app w) message) w
  /\ transcripts (app w') = transcripts (app w)
  /\ isUserSpeaking (app w') = isUserSpeaking (app w)
  /\ isBotSpeaking (app w') = isBotSpeaking (app w)
  /\ streamingUserText (app w') = streamingUserText (app w)
  /\ layout w' = layout w
  /\ safetyTimeout w' = safetyTimeout w
  /\ (isStateUpdate message = false -> w' = w).
Proof.
  intros w w'. pose proof (consistent_reachable es) as Hc. fold w in Hc.
  destruct (handleServerMessage_frame (app w) message) as (Hs & _ & Ht).
  assert (E : w' = withApp (handleServerMessage (app w) message) w).
  { apply render_store_only; assumption. }
  split; [exact E|]. rewrite E. simpl.
  split; [exact Ht|]. split; [exact Hs|].
  unfold handleServerMessage.
  destruct (js_is_str _ _) eqn:Eu; repeat split; auto;
    intros H; unfold isStateUpdate in H; try congruence.
  apply withApp_same.
Qed.

(** X3: The agent-speaking events set the flag and nothing else: no history
    entry, no change of mode, transcripts or timeout. *)
Theorem bot_speaking_events_touch_flag_only (es : list Event) (b : bool) :
  let w := run initialWorld es in
  let w' := step w (if b then BotStartedSpeaking else BotStoppedSpeaking) in
  w' = withApp (setIsBotSpeaking b (app w)) w
  /\ isBotSpeaking (app w') = b
  /\ history w' = history w
  /\ mode w' = mode w
  /\ transcripts (app w') = transcripts (app w)
  /\ safetyTimeout w' = safetyTimeout w.
Proof.
  intros w w'. pose proof (consistent_reachable es) as Hc. fold w in Hc.
  assert (E : w' = withApp (setIsBotSpeaking b (app w)) w).
  { subst w'. destruct b; apply (render_store_only _ w Hc); reflexivity. }
  rewrite E. repeat split.
Qed.

(** ** Invariants of the store *)

Lemma step_app_cases (w : World) (e : Event) :
  app (step w e) = dispatch (app w) e
  \/ app (step w e) = safetyTimeoutCallback (app w).
Proof.
  destruct e; try (left; reflexivity). simpl.
  destruct (safetyTimeout w) as [d|]; [|left; reflexivity].
  destruct (d <=? now w + ms)%nat; [right | left]; reflexivity.
Qed.

(** A property of the store that every handler and the timeout callback
    keep holds between any two events. *)
Lemma store_invariant (P : AppState -> Prop) :
  P initialApp ->
  (forall a e, P a -> P (dispatch a e)) ->
  (forall a, P a -> P (safetyTimeoutCallback a)) ->
  forall es, P (app (run initialWorld es)).
Proof.
  intros H0 Hd Hc es.
  assert (G : forall w, P (app w) -> P (app (run w es))).
  { induction es as [|e es IH]; intros w Hw; simpl; [exact Hw|].
    apply IH. destruct (step_app_cases w e) as [-> | ->]; auto. }
  apply G. exact H0.
Qed.

Lemma streamingShape_dispatch (a : AppState) (e : Event) :
  streamingShape a -> streamingShape (dispatch a e).
Proof.
  intros [H1 H2]. destruct e; simpl; try (split; auto; fail).
  - destruct (handleServerMessage_frame a message) as (Hs & Hr & _).
    unfold streamingShape. rewrite Hs, Hr.
    unfold handleServerMessage. destruct (js_is_str _ _); simpl; auto.
  - unfold handleUserTranscript. destruct (data_text data) as [t|]; [|split; auto].
    destruct (negb (data_isFinal data)); split; simpl; auto; discriminate.
  - destruct (handleBotTtsText_frame a data) as (Hs & Hr & _).
    unfold streamingShape. rewrite Hs, Hr.
    unfold handleBotTtsText. destruct (data_text data) as [t|]; auto.
    destruct (trim_nonempty t); simpl; auto.
  - split; simpl; [discriminate | exact H2].
Qed.

Lemma streamingShape_callback (a : AppState) :
  streamingShape (safetyTimeoutCallback a).
Proof.
  destruct (safetyTimeoutCallback_clears a) as (_ & Hs & _).
  split; rewrite Hs; auto.
Qed.

Lemma streamingShape_reachable (es : list Event) :
  streamingShape (app (run initialWorld es)).
Proof.
  apply (store_invariant streamingShape).
  - split; auto.
  - apply streamingShape_dispatch.
  - intros a _. apply streamingShape_callback.
Qed.

(** X4: The streaming utterance is transient: between events the streaming
    text is empty whenever the user-speaking flag is clear, and when it
    is not empty it is the partial text the ref holds. *)
Theorem streaming_text_only_while_speaking (es : list Event) :
  let w := run initialWorld es in
  (userSpeaking w = false -> streamingUserText (app w) = "")
  /\ (streamingUserText (app w) <> "" ->
      userSpeaking w = true
      /\ streamingUserText (app w) = streamingUserTextRef (app w)).
Proof.
  intros w. destruct (streamingShape_reachable es) as [H1 H2]. fold w in H1, H2.
  split; [exact H1|]. intros Hne. split.
  - unfold userSpeaking. destruct (isUserSpeaking (app w)); [reflexivity|].
    exfalso. apply Hne, H1. reflexivity.
  - destruct H2 as [H|H]; [contradiction | exact H].
Qed.

(** ** The safety timeout never leaves the flag stuck *)

(** X5: Between events a timeout is pending exactly while the user-speaking
    flag is set, no more than five seconds ahead; so whatever happened
    before, once five seconds pass without an event the flag and the
    streaming text are clear and nothing is pending. *)
Theorem speaking_flag_clears_within_timeout (es : list Event) (ms : nat) :
  let w := run initialWorld es in
  (userSpeaking w = true <-> exists deadline, safetyTimeout w = Some deadline)
  /\ (forall deadline, safetyTimeout w = Some deadline ->
        (now w < deadline <= now w + SAFETY_TIMEOUT_MS)%nat)
  /\ ((SAFETY_TIMEOUT_MS <= ms)%nat ->
        userSpeaking (step w (Elapse ms)) = false
        /\ streamingUserText (app (step w (Elapse ms))) = ""
        /\ safetyTimeout (step w (Elapse ms)) = None).
Proof.
  intros w. pose proof (consistent_reachable es) as Hc. fold w in Hc.
  pose proof Hc as (_ & _ & _ & _ & Hto). unfold timeoutConsistent in Hto.
  destruct (streamingShape_reachable es) as [Hstream _]. fold w in Hstream.
  unfold userSpeaking.
  split; [|split].
  - destruct (safetyTimeout w) as [d|].
    + split; [eauto | intros _; apply Hto].
    + rewrite Hto. split; [discriminate | intros [d Hd]; discriminate].
  - intros d Hd. rewrite Hd in Hto. lia.
  - intros Hms. destruct (safetyTimeout w) as [d|] eqn:E.
    + destruct Hto as (_ & _ & Hle).
      destruct (timeout_fires w d ms Hc E) as (Ha & Hnone & _); [lia|].
      rewrite Ha, Hnone.
      destruct (safetyTimeoutCallback_clears (app w)) as (-> & -> & _). auto.
    + assert (Hw : step w (Elapse ms) = withNow (now w + ms) w)
        by (simpl; rewrite E; reflexivity).
      rewrite Hw. simpl. rewrite E. auto.
Qed.

Lemma speaking_flag_clears_within_timeout_witness :
  let w := run initialWorld
             [UserStartedSpeaking; Elapse 1000;
              UserTranscript (partialTranscript "so"); Elapse 2000] in
  userSpeaking w = true
  /\ userSpeaking (step w (Elapse 5000)) = false.
Proof.
  intros w. split; [vm_compute; reflexivity|].
  apply (speaking_flag_clears_within_timeout
           [UserStartedSpeaking; Elapse 1000;
            UserTranscript (partialTranscript "so"); Elapse 2000] 5000).
  unfold SAFETY_TIMEOUT_MS. lia.
Defined.

(** ** The indicator between events *)

Lemma settleMode_listening (m : ConversationMode) (h : list TranscriptMessage) :
  settleMode m h = listening <-> m = listening.
Proof.
  unfold settleMode. destruct m; simpl; try tauto.
  destruct (lastIsBot h); split; congruence.
Qed.

Lemma listening_iff_speaking_step (w : World) (e : Event) :
  consistent w ->
  (mode w = listening <-> userSpeaking w = true) ->
  (mode (step w e) = listening <-> userSpeaking (step w e) = true).
Proof.
  intros Hc IH. rewrite (step_mode w e Hc), settleMode_listening.
  unfold edgeMode, risingEdge, fallingEdge.
  destruct (userSpeaking w), (userSpeaking (step w e)); simpl.
  - rewrite IH. tauto.
  - split; discriminate.
  - tauto.
  - rewrite IH. tauto.
Qed.

Lemma listening_iff_speaking_reachable (es : list Event) :
  mode (run initialWorld es) = listening <-> userSpeaking (run initialWorld es) = true.
Proof.
  assert (G : forall w, consistent w ->
                (mode w = listening <-> userSpeaking w = true) ->
                (mode (run w es) = listening <-> userSpeaking (run w es) = true)).
  { induction es as [|e es IH]; intros w Hc H; simpl; [exact H|].
    apply IH; [apply consistent_step, Hc | apply listening_iff_speaking_step; auto]. }
  apply G; [apply consistent_initialWorld|].
  split; discriminate.
Qed.

(** X6: Between events the indicator shows listening exactly while the
    user-speaking flag is set. *)
Theorem listening_exactly_while_speaking (es : list Event) :
  let w := run initialWorld es in
  mode w = listening <-> userSpeaking w = true.
Proof. apply listening_iff_speaking_reachable. Qed.

(** X7: Between events the indicator is never left on thinking while the
    latest entry of the history is the agent's. *)
Theorem thinking_never_rests_on_agent_entry (es : list Event) :
  let w := run initialWorld es in
  mode w = thinking ->
  forall m, last (history w) = Some m -> speaker m = SpUser.
Proof.
  intros w Hth m Hm. pose proof (consistent_reachable es) as (_ & Hq & _).
  fold w in Hq. specialize (Hq Hth). unfold lastIsBot in Hq.
  fold (history w) in Hq. rewrite Hm in Hq.
  destruct (speaker m); [reflexivity | discriminate].
Qed.

Lemma thinking_never_rests_on_agent_entry_witness :
  let w := run initialWorld
             [BotTtsText (transcriptText "which topic?"); UserStartedSpeaking;
              UserTranscript (finalTranscript "the schedule")] in
  mode w = thinking
  /\ forall m, last (history w) = Some m -> speaker m = SpUser.
Proof.
  intros w. split; [vm_compute; reflexivity|].
  apply (thinking_never_rests_on_agent_entry
           [BotTtsText (transcriptText "which topic?"); UserStartedSpeaking;
            UserTranscript (finalTranscript "the schedule")]).
  vm_compute. reflexivity.
Defined.

(** ** How the history grows *)

Lemma userHistoryEffect_grows (t : nat) (p : Props) (l : Layout) :
  transcriptHistory (userHistoryEffect t p l) = transcriptHistory l
  \/ (trim_nonempty (user (p_transcripts p)) = true
      /\ transcriptHistory (userHistoryEffect t p l) =
         transcriptHistory l ++
           [ {| speaker := SpUser; msg_text := user (p_transcripts p);
                timestamp := t |} ]).
Proof.
  unfold userHistoryEffect.
  destruct (negb (String.eqb (user (p_transcripts p)) "")); [|auto].
  destruct (trim_nonempty (user (p_transcripts p))); [|auto].
  destruct (negb (p_isUserSpeaking p)); [|auto]. simpl.
  destruct (lastMsgOf SpUser _) as [m|]; [destruct (negb _)|]; auto.
Qed.

Lemma botHistoryEffect_grows (t : nat) (p : Props) (l : Layout) :
  transcriptHistory (botHistoryEffect t p l) = transcriptHistory l
  \/ (trim_nonempty (bot (p_transcripts p)) = true
      /\ transcriptHistory (botHistoryEffect t p l) =
         transcriptHistory l ++
           [ {| speaker := SpBot; msg_text := bot (p_transcripts p);
                timestamp := t |} ]).
Proof.
  unfold botHistoryEffect.
  destruct (negb (String.eqb (bot (p_transcripts p)) "")); [|auto].
  destruct (trim_nonempty (bot (p_transcripts p))); [|auto].
  destruct (negb (String.eqb _ (lastProcessedTts l))); [|auto]. simpl.
  destruct (lastMsgOf SpBot _) as [m|]; [destruct (String.eqb _ _)|]; auto.
Qed.

Lemma userHistoryEffect_blank (t : nat) (p : Props) (l : Layout) :
  user (p_transcripts p) = "" -> userHistoryEffect t p l = l.
Proof. intros H. unfold userHistoryEffect. rewrite H. reflexivity. Qed.

Lemma botHistoryEffect_blank (t : nat) (p : Props) (l : Layout) :
  bot (p_transcripts p) = "" -> botHistoryEffect t p l = l.
Proof. intros H. unfold botHistoryEffect. rewrite H. reflexivity. Qed.

Lemma userHistoryEffect_speaking (t : nat) (p : Props) (l : Layout) :
  p_isUserSpeaking p = true -> userHistoryEffect t p l = l.
Proof.
  intros H. unfold userHistoryEffect. rewrite H.
  rewrite andb_false_r. reflexivity.
Qed.

(** With the channel state unchanged and the agent transcript unchanged
    or emptied, only the effect for user transcripts can add an entry. *)
Lemma propEffects_user_side (t : nat) (p0 p : Props) (l : Layout) :
  p_transportState p = p_transportState p0 ->
  bot (p_transcripts p) = bot (p_transcripts p0) \/ bot (p_transcripts p) = "" ->
  transcriptHistory (propEffects t p0 p l) = transcriptHistory l
  \/ (trim_nonempty (user (p_transcripts p)) = true
      /\ transcriptHistory (propEffects t p0 p l) =
         transcriptHistory l ++
           [ {| speaker := SpUser; msg_text := user (p_transcripts p);
                timestamp := t |} ]).
Proof.
  intros Htr Hbot. unfold propEffects. cbv zeta.
  rewrite Htr, TransportState_eqb_refl.
  set (l1 := if Bool.eqb (p_isUserSpeaking p0) (p_isUserSpeaking p) then l
             else speakingEdgeEffect p l).
  assert (H1 : transcriptHistory l1 = transcriptHistory l)
    by apply speakingEdge_or_not_history.
  set (l3 := if String.eqb (user (p_transcripts p0)) (user (p_transcripts p))
                && Bool.eqb (p_isUserSpeaking p0) (p_isUserSpeaking p)
             then l1 else userHistoryEffect t p l1).
  assert (H4 : (if String.eqb (bot (p_transcripts p0)) (bot (p_transcripts p))
                then l3 else botHistoryEffect t p l3) = l3).
  { destruct Hbot as [E|E].
    - rewrite E, String.eqb_refl. reflexivity.
    - destruct (String.eqb (bot (p_transcripts p0)) (bot (p_transcripts p)));
        [reflexivity | apply botHistoryEffect_blank, E]. }
  rewrite H4. subst l3.
  destruct (_ && _); [left; exact H1|].
  rewrite <- H1. apply userHistoryEffect_grows.
Qed.

(** With the channel state, the user transcript and the speaking flag
    unchanged, only the effect for agent transcripts can add an entry. *)
Lemma propEffects_bot_side (t : nat) (p0 p : Props) (l : Layout) :
  p_transportState p = p_transportState p0 ->
  user (p_transcripts p) = user (p_transcripts p0) ->
  p_isUserSpeaking p = p_isUserSpeaking p0 ->
  transcriptHistory (propEffects t p0 p l) = transcriptHistory l
  \/ (trim_nonempty (bot (p_transcripts p)) = true
      /\ transcriptHistory (propEffects t p0 p l) =
         transcriptHistory l ++
           [ {| speaker := SpBot; msg_text := bot (p_transcripts p);
                timestamp := t |} ]).
Proof.
  intros Htr Hu Hs. unfold propEffects. cbv zeta.
  rewrite Htr, Hu, Hs, TransportState_eqb_refl, Bool_eqb_refl, String.eqb_refl.
  cbn [andb]. destruct (String.eqb _ _); [left; reflexivity|].
  apply botHistoryEffect_grows.
Qed.

Lemma step_transportState (w : World) (e : Event) :
  transportState (step w e) =
  match e with TransportStateChange s => s | _ => transportState w end.
Proof.
  destruct e; try reflexivity. simpl.
  destruct (safetyTimeout w) as [d|]; [|reflexivity].
  destruct (d <=? now w + ms)%nat; reflexivity.
Qed.

Lemma handleUserTranscript_bot (a : AppState) (data : option TranscriptData) :
  bot (transcripts (handleUserTranscript a data)) = bot (transcripts a).
Proof.
  unfold handleUserTranscript. destruct (data_text data) as [t|]; [|reflexivity].
  destruct (negb (data_isFinal data)); reflexivity.
Qed.

Lemma safetyTimeoutCallback_bot (a : AppState) :
  bot (transcripts (safetyTimeoutCallback a)) = bot (transcripts a)
  /\ courseState (safetyTimeoutCallback a) = courseState a
  /\ isBotSpeaking (safetyTimeoutCallback a) = isBotSpeaking a.
Proof.
  unfold safetyTimeoutCallback.
  destruct (negb (String.eqb (streamingUserTextRef a) "")); auto.
Qed.

(** What one event can do to the history, read off the change of props
    it brings. *)
Lemma step_grows (w : World) (e : Event) :
  consistent w -> entersReady w e = false -> grewByAtMostOne w (step w e).
Proof.
  intros Hc Hready.
  destruct (step_history w e Hc) as (t & Hh & _).
  pose proof (step_transportState w e) as Htr.
  set (w' := step w e) in *.
  set (Side :=
    transcriptHistory (propEffects t (propsOf w) (propsOf w') (layout w))
      = transcriptHistory (layout w)
    \/ (exists sp,
          trim_nonempty (transcriptOf sp (app w')) = true
          /\ transcriptHistory (propEffects t (propsOf w) (propsOf w') (layout w))
             = transcriptHistory (layout w) ++
                 [ {| speaker := sp; msg_text := transcriptOf sp (app w');
                      timestamp := t |} ])).
  assert (Hside : Side).
  { assert (Huser : forall a,
              app w' = a -> transportState w' = transportState w ->
              bot (transcripts a) = bot (transcripts (app w))
              \/ bot (transcripts a) = "" -> Side).
    { intros a Ha Ht Hb.
      destruct (propEffects_user_side t (propsOf w) (propsOf w') (layout w))
        as [H | [Hn H]]; [exact Ht | rewrite <- Ha in Hb; exact Hb | left; exact H |].
      right. exists SpUser. split; [exact Hn | exact H]. }
    destruct e; cbn [entersReady] in Hready.
    - apply (Huser _ eq_refl Htr). left.
      apply (f_equal bot (proj2 (proj2 (handleServerMessage_frame (app w) message)))).
    - apply (Huser _ eq_refl Htr). left. apply handleUserTranscript_bot.
    - destruct (propEffects_bot_side t (propsOf w) (propsOf w') (layout w))
        as [H | [Hn H]]; [exact Htr | | | left; exact H |].
      + apply (proj2 (proj2 (handleBotTtsText_frame (app w) data))).
      + apply (proj1 (handleBotTtsText_frame (app w) data)).
      + right. exists SpBot. split; [exact Hn | exact H].
    - apply (Huser _ eq_refl Htr). left. reflexivity.
    - apply (Huser _ eq_refl Htr). left. reflexivity.
    - apply (Huser _ eq_refl Htr). left. reflexivity.
    - apply (Huser _ eq_refl Htr). right. reflexivity.
    - apply (Huser _ eq_refl Htr). left. reflexivity.
    - left. unfold propEffects. cbv zeta.
      change (propsOf w') with
        {| p_transcripts := transcripts (app w);
           p_isUserSpeaking := isUserSpeaking (app w);
           p_transportState := s |}.
      unfold propsOf. simpl.
      rewrite Bool_eqb_refl, !String.eqb_refl. simpl.
      destruct (TransportState_eqb (transportState w) s) eqn:E; [reflexivity|].
      unfold resetOnReadyEffect. simpl.
      destruct s; try reflexivity. simpl in Hready. rewrite E in Hready.
      discriminate.
    - apply (Huser _ eq_refl Htr).
      destruct (step_app_cases w (Elapse ms)) as [E|E]; fold w' in E; rewrite E.
      + left. reflexivity.
      + left. apply safetyTimeoutCallback_bot. }
  subst Side. unfold grewByAtMostOne. rewrite Hh. fold (history w) in Hside.
  destruct Hside as [H | (sp & Hn & H)]; [left; exact H|].
  right. eexists. split; [exact H|]. split; [exact Hn | reflexivity].
Qed.

Lemma step_enters_ready (w : World) (e : Event) :
  consistent w -> entersReady w e = true -> history (step w e) = [].
Proof.
  intros Hc H. destruct e; try discriminate. destruct s; try discriminate.
  simpl in H. apply step_ready_history; [exact Hc|].
  intros E. rewrite E in H. discriminate.
Qed.

(** X8: The history is append-only between connections: an event that takes
    the channel into the ready state empties it; any other event leaves
    it as it was or adds one entry at its end, a non-blank text that is
    the transcript the store then holds for its speaker. *)
Theorem history_grows_one_entry_at_a_time (es : list Event) (e : Event) :
  let w := run initialWorld es in
  let w' := step w e in
  if entersReady w e then history w' = [] else grewByAtMostOne w w'.
Proof.
  intros w w'. pose proof (consistent_reachable es) as Hc. fold w in Hc.
  destruct (entersReady w e) eqn:E.
  - apply step_enters_ready; assumption.
  - apply step_grows; assumption.
Qed.

Lemma noBlankEntry_step (w : World) (e : Event) :
  consistent w -> noBlankEntry (history w) -> noBlankEntry (history (step w e)).
Proof.
  intros Hc H. destruct (entersReady w e) eqn:E.
  - rewrite (step_enters_ready w e Hc E). constructor.
  - destruct (step_grows w e Hc E) as [-> | (m & -> & Hm & _)]; [exact H|].
    apply Forall_app. split; [exact H|]. constructor; [exact Hm | constructor].
Qed.

(** X9: No entry of the history is ever empty or blank. *)
Theorem history_has_no_blank_entry (es : list Event) :
  noBlankEntry (history (run initialWorld es)).
Proof.
  assert (G : forall w, consistent w -> noBlankEntry (history w) ->
                        noBlankEntry (history (run w es))).
  { induction es as [|e es IH]; intros w Hc H; simpl; [exact H|].
    apply IH; [apply consistent_step, Hc | apply noBlankEntry_step; assumption]. }
  apply G; [apply consistent_initialWorld | constructor].
Qed.

(** ** Transcripts and connection callbacks, event by event *)

Lemma not_speaking_no_timeout (w : World) :
  consistent w -> userSpeaking w = false -> safetyTimeout w = None.
Proof.
  intros (_ & _ & _ & _ & Ht) Hs. unfold timeoutConsistent, userSpeaking in *.
  destruct (safetyTimeout w) as [d|]; [|reflexivity].
  destruct Ht as (Ht & _). congruence.
Qed.

Lemma run_snoc (es : list Event) (e : Event) (w : World) :
  run w (es ++ [e]) = step (run w es) e.
Proof. unfold run. rewrite fold_left_app. reflexivity. Qed.

(** X10: A partial user transcript with a text becomes the streaming text
    (and the ref), sets the speaking flag and shows listening; it leaves
    the transcripts and the history alone, and it does not postpone a
    timeout that is already pending. *)
Theorem partial_transcript_streams_without_history
    (es : list Event) (data : option TranscriptData) (t : string) :
  let w := run initialWorld es in
  let w' := step w (UserTranscript data) in
  data_text data = Some t -> data_isFinal data = false ->
  streamingUserText (app w') = t
  /\ streamingUserTextRef (app w') = t
  /\ userSpeaking w' = true
  /\ transcripts (app w') = transcripts (app w)
  /\ history w' = history w
  /\ mode w' = listening
  /\ safetyTimeout w' =
       (if userSpeaking w then safetyTimeout w
        else Some (now w + SAFETY_TIMEOUT_MS)%nat).
Proof.
  intros w w' Ht Hf. pose proof (consistent_reachable es) as Hc. fold w in Hc.
  pose proof Hc as (_ & _ & _ & Hd & _).
  destruct (step_dispatch w (UserTranscript data) eq_refl) as (Ha & _ & _ & Hto).
  fold w' in Ha, Hto. cbn [dispatch] in Ha, Hto.
  rewrite (handleUserTranscript_partial _ _ _ Ht Hf) in Ha, Hto.
  assert (Hs : userSpeaking w' = true) by (unfold userSpeaking; rewrite Ha; reflexivity).
  split; [rewrite Ha; reflexivity|]. split; [rewrite Ha; reflexivity|].
  split; [exact Hs|]. split; [rewrite Ha; reflexivity|].
  split; [|split].
  - destruct (step_history w (UserTranscript data) Hc) as (t0 & Hh & _).
    fold w' in Hh. rewrite Hh.
    pose proof (step_transportState w (UserTranscript data)) as Htr.
    fold w' in Htr. cbn iota in Htr.
    assert (Hp1 : p_isUserSpeaking (propsOf w') = true)
      by (unfold propsOf; cbn [p_isUserSpeaking]; rewrite Ha; reflexivity).
    assert (Hp2 : p_transcripts (propsOf w') = p_transcripts (propsOf w))
      by (unfold propsOf; cbn [p_transcripts]; rewrite Ha; reflexivity).
    assert (Hp3 : p_transportState (propsOf w') = p_transportState (propsOf w))
      by exact Htr.
    unfold propEffects. cbv zeta.
    rewrite Hp2, Hp3, !String.eqb_refl, TransportState_eqb_refl. cbn [andb].
    rewrite (userHistoryEffect_speaking t0 (propsOf w') _ Hp1).
    unfold history. destruct (Bool.eqb _ _); [reflexivity|].
    apply (speakingEdge_or_not_history false).
  - apply (listening_iff_speaking_step w (UserTranscript data) Hc);
      [apply listening_iff_speaking_reachable | exact Hs].
  - rewrite Hto, Hd. simpl. unfold userSpeaking.
    destruct (isUserSpeaking (app w)); reflexivity.
Qed.

Lemma partial_transcript_streams_without_history_witness :
  let w := run initialWorld
             [UserTranscript (finalTranscript "hello"); UserStartedSpeaking;
              Elapse 1200] in
  let w' := step w (UserTranscript (partialTranscript "tell me ab")) in
  streamingUserText (app w') = "tell me ab"
  /\ entries (history w') = [(SpUser, "hello")]
  /\ safetyTimeout w' = Some 5000%nat.
Proof.
  intros w w'.
  destruct (partial_transcript_streams_without_history
              [UserTranscript (finalTranscript "hello"); UserStartedSpeaking;
               Elapse 1200] (partialTranscript "tell me ab") "tell me ab"
              eq_refl eq_refl)
    as (Hs & _ & _ & _ & Hh & _ & Hto).
  split; [exact Hs|]. split.
  - unfold w', w. rewrite Hh. vm_compute. reflexivity.
  - unfold w', w. rewrite Hto. vm_compute. reflexivity.
Defined.

Lemma lastIsBot_user_snoc (h : list TranscriptMessage) (u : string) (t : nat) :
  lastIsBot (h ++ [ {| speaker := SpUser; msg_text := u; timestamp := t |} ]) = false.
Proof. rewrite lastIsBot_snoc. reflexivity. Qed.

(** X11: A final user transcript whose text is not blank, differs from the
    most recent user entry, and is news to the effect (the store held
    another user transcript, or the speaking flag was set) is appended
    as the latest entry; the store keeps it as the user transcript,
    clears the streaming text, the ref and the flag, and the pending
    timeout is cancelled.  If it ended a turn the indicator shows
    thinking. *)
Theorem final_transcript_is_appended
    (es : list Event) (data : option TranscriptData) (u : string) :
  let w := run initialWorld es in
  let w' := step w (UserTranscript data) in
  data_text data = Some u -> data_isFinal data = true ->
  trim_nonempty u = true ->
  user (transcripts (app w)) <> u \/ userSpeaking w = true ->
  (forall m, lastMsgOf SpUser (history w) = Some m -> msg_text m <> u) ->
  entries (history w') = entries (history w) ++ [(SpUser, u)]
  /\ user (transcripts (app w')) = u
  /\ bot (transcripts (app w')) = bot (transcripts (app w))
  /\ streamingUserText (app w') = ""
  /\ streamingUserTextRef (app w') = ""
  /\ userSpeaking w' = false
  /\ safetyTimeout w' = None
  /\ (userSpeaking w = true -> mode w' = thinking).
Proof.
  intros w w' Ht Hf Htrim Hnews Hlast.
  pose proof (consistent_reachable es) as Hc. fold w in Hc.
  destruct (step_dispatch w (UserTranscript data) eq_refl) as (Ha & _ & _ & _).
  fold w' in Ha. cbn [dispatch] in Ha.
  rewrite (handleUserTranscript_final _ _ _ Ht Hf) in Ha.
  assert (Hs : userSpeaking w' = false) by (unfold userSpeaking; rewrite Ha; reflexivity).
  assert (Hh : exists t0, history w' =
            history w ++ [ {| speaker := SpUser; msg_text := u; timestamp := t0 |} ]).
  { destruct (step_history w (UserTranscript data) Hc) as (t0 & Hh & _).
    fold w' in Hh. exists t0. rewrite Hh. unfold propEffects. cbv zeta.
    assert (Hp : propsOf w' = {| p_transcripts :=
                                   {| user := u; bot := bot (transcripts (app w)) |};
                                 p_isUserSpeaking := false;
                                 p_transportState := transportState w |}).
    { pose proof (step_transportState w (UserTranscript data)) as Htr.
      fold w' in Htr. cbn iota in Htr.
      unfold propsOf. rewrite Ha, Htr. reflexivity. }
    rewrite Hp. cbn [p_transcripts p_isUserSpeaking p_transportState propsOf user bot].
    rewrite String.eqb_refl, TransportState_eqb_refl.
    set (l1 := if Bool.eqb (isUserSpeaking (app w)) false then layout w
               else speakingEdgeEffect _ (layout w)).
    assert (H1 : transcriptHistory l1 = history w)
      by (unfold history; apply speakingEdge_or_not_history).
    assert (Hcond : String.eqb (user (transcripts (app w))) u
                    && Bool.eqb (isUserSpeaking (app w)) false = false).
    { destruct Hnews as [Hn|Hn].
      - destruct (String.eqb_spec (user (transcripts (app w))) u);
          [contradiction | reflexivity].
      - unfold userSpeaking in Hn. rewrite Hn. apply andb_false_r. }
    rewrite Hcond. unfold userHistoryEffect.
    cbn [p_transcripts p_isUserSpeaking user]. rewrite Htrim, H1.
    assert (Hne : String.eqb u "" = false)
      by (destruct u; [discriminate Htrim | reflexivity]).
    rewrite Hne. cbn [negb andb].
    destruct (lastMsgOf SpUser (history w)) as [m|] eqn:Em.
    - destruct (String.eqb_spec (msg_text m) u) as [E|_];
        [exfalso; exact (Hlast m eq_refl E)|].
      reflexivity.
    - reflexivity. }
  destruct Hh as [t0 Hh].
  split.
  { rewrite Hh. unfold entries. rewrite fmap_app. reflexivity. }
  split; [rewrite Ha; reflexivity|]. split; [rewrite Ha; reflexivity|].
  split; [rewrite Ha; reflexivity|]. split; [rewrite Ha; reflexivity|].
  split; [exact Hs|].
  split; [apply not_speaking_no_timeout; [apply consistent_step, Hc | exact Hs]|].
  intros Hsp. unfold w'. rewrite (step_mode w _ Hc). fold w'.
  unfold edgeMode, risingEdge, fallingEdge. rewrite Hsp, Hs, Hh.
  unfold settleMode. rewrite lastIsBot_user_snoc. reflexivity.
Qed.

Lemma final_transcript_is_appended_witness :
  let w := run initialWorld
             [BotTtsText (transcriptText "which topic?"); UserStartedSpeaking;
              UserTranscript (partialTranscript "the sched")] in
  let w' := step w (UserTranscript (finalTranscript "the schedule")) in
  entries (history w') = [(SpBot, "which topic?"); (SpUser, "the schedule")]
  /\ safetyTimeout w' = None
  /\ mode w' = thinking.
Proof.
  intros w w'.
  destruct (final_transcript_is_appended
              [BotTtsText (transcriptText "which topic?"); UserStartedSpeaking;
               UserTranscript (partialTranscript "the sched")]
              (finalTranscript "the schedule") "the schedule"
              eq_refl eq_refl eq_refl)
    as (Hh & _ & _ & _ & _ & _ & Hto & Hm).
  - right. vm_compute. reflexivity.
  - intros m Hm. vm_compute in Hm. discriminate Hm.
  - split; [exact Hh|]. split; [exact Hto|]. apply Hm. vm_compute. reflexivity.
Defined.

(** X12: The connected callback starts a fresh session in the store: both
    transcripts and the streaming text are emptied, both speaking flags
    cleared and the pending timeout cancelled; the conversation state,
    the ref and the history are left as they were. *)
Theorem connected_resets_store_keeps_history (es : list Event) :
  let w := run initialWorld es in
  let w' := step w Connected in
  transcripts (app w') = {| user := ""; bot := "" |}
  /\ streamingUserText (app w') = ""
  /\ userSpeaking w' = false
  /\ isBotSpeaking (app w') = false
  /\ safetyTimeout w' = None
  /\ courseState (app w') = courseState (app w)
  /\ streamingUserTextRef (app w') = streamingUserTextRef (app w)
  /\ history w' = history w.
Proof.
  intros w w'. pose proof (consistent_reachable es) as Hc. fold w in Hc.
  assert (Ha : app w' = handleConnected (app w)) by reflexivity.
  assert (Hs : userSpeaking w' = false) by reflexivity.
  repeat (split; [reflexivity|]).
  split; [apply not_speaking_no_timeout; [apply consistent_step, Hc | exact Hs]|].
  repeat (split; [reflexivity|]).
  destruct (step_history w Connected Hc) as (t0 & Hh & _). fold w' in Hh.
  rewrite Hh.
  destruct (propEffects_user_side t0 (propsOf w) (propsOf w') (layout w))
    as [H | [Hn _]]; [reflexivity | right; reflexivity | exact H |].
  discriminate Hn.
Qed.

(** X13: The disconnected callback clears the streaming text and both
    speaking flags and cancels the pending timeout; the transcripts and
    the conversation state stay, and the history is kept: at most a user
    transcript that was still waiting for the flag to clear is added. *)
Theorem disconnected_clears_flags_keeps_history (es : list Event) :
  let w := run initialWorld es in
  let w' := step w Disconnected in
  streamingUserText (app w') = ""
  /\ userSpeaking w' = false
  /\ isBotSpeaking (app w') = false
  /\ safetyTimeout w' = None
  /\ transcripts (app w') = transcripts (app w)
  /\ courseState (app w') = courseState (app w)
  /\ (history w' = history w
      \/ exists t,
           history w' =
           history w ++ [ {| speaker := SpUser;
                             msg_text := user (transcripts (app w));
                             timestamp := t |} ]).
Proof.
  intros w w'. pose proof (consistent_reachable es) as Hc. fold w in Hc.
  assert (Hs : userSpeaking w' = false) by reflexivity.
  repeat (split; [reflexivity|]).
  split; [apply not_speaking_no_timeout; [apply consistent_step, Hc | exact Hs]|].
  repeat (split; [reflexivity|]).
  destruct (step_history w Disconnected Hc) as (t0 & Hh & _). fold w' in Hh.
  rewrite Hh.
  destruct (propEffects_user_side t0 (propsOf w) (propsOf w') (layout w))
    as [H | [_ H]]; [reflexivity | left; reflexivity | left; exact H |].
  right. exists t0. exact H.
Qed.

(** * Further properties of [handleConnect] *)

Section ConnectMore.
Context {T : Type} (c : Client T).

(** The [try] block, in one piece. *)
Lemma connectAttempt_eq (s : ConnectState T) :
  connectAttempt c s =
  (mkConnectState
     (fst (startBotAndConnect c (transportBeforeStart c (transport s))))
     (setTranscripts {| user := ""; bot := "" |} (store s))
     (actions s ++ reconnectPrelude c (transport s) ++ [CalledStartBotAndConnect]),
   if snd (startBotAndConnect c (transportBeforeStart c (transport s)))
   then Completed else Threw).
Proof.
  unfold connectAttempt, andThen, when, tryCatch, awaitDisconnect, record,
    clearTranscripts, awaitStartBotAndConnect, stateIs, reconnectPrelude,
    transportBeforeStart.
  destruct (TransportState_eqb (clientState c (transport s)) disconnected);
    cbn [negb].
  - cbn [transport store actions].
    destruct (startBotAndConnect c (transport s)) as [t2 ok]. reflexivity.
  - destruct (disconnect c (transport s)) as [t1 ok1].
    destruct ok1; cbn [transport store actions fst snd];
      destruct (startBotAndConnect c t1) as [t2 ok];
      cbn [fst snd]; rewrite <- ?app_assoc; reflexivity.
Qed.

Lemma recoverFromFailure_eq (s : ConnectState T) :
  recoverFromFailure c s =
  (mkConnectState
     (if TransportState_eqb (clientState c (transport s)) ready
         || TransportState_eqb (clientState c (transport s)) connecting
      then fst (disconnect c (transport s)) else transport s)
     (store s)
     (actions s ++ recoveryActions c (transport s)),
   Completed).
Proof.
  unfold recoverFromFailure, when, tryCatch, awaitDisconnect, record, stateIs,
    recoveryActions.
  destruct (TransportState_eqb (clientState c (transport s)) ready
            || TransportState_eqb (clientState c (transport s)) connecting).
  - destruct (disconnect c (transport s)) as [t1 ok1].
    destruct ok1; cbn [transport store actions fst snd];
      rewrite <- ?app_assoc; reflexivity.
  - rewrite app_nil_r. destruct s; reflexivity.
Qed.

(** [handleConnect], in one piece. *)
Lemma handleConnect_eq (s : ConnectState T) :
  let started := startBotAndConnect c (transportBeforeStart c (transport s)) in
  handleConnect c s =
  (mkConnectState
     (if snd started then fst started
      else if TransportState_eqb (clientState c (fst started)) ready
              || TransportState_eqb (clientState c (fst started)) connecting
           then fst (disconnect c (fst started)) else fst started)
     (setTranscripts {| user := ""; bot := "" |} (store s))
     (actions s ++ reconnectPrelude c (transport s)
        ++ CalledStartBotAndConnect ::
           (if snd started then [] else recoveryActions c (fst started))),
   Completed).
Proof.
  intros started. unfold handleConnect, tryCatch.
  rewrite connectAttempt_eq. fold started.
  destruct (snd started).
  - reflexivity.
  - rewrite recoverFromFailure_eq. cbn [transport store actions].
    rewrite <- !app_assoc. reflexivity.
Qed.

Lemma count_reconnectPrelude (t : T) :
  countActions isStartCall (reconnectPrelude c t) = 0%nat
  /\ (countActions isDisconnectCall (reconnectPrelude c t) <= 1)%nat.
Proof.
  unfold reconnectPrelude, countActions.
  destruct (TransportState_eqb _ _); [simpl; lia|].
  destruct (snd (disconnect c t)); simpl; lia.
Qed.

Lemma count_recoveryActions (t : T) :
  countActions isStartCall (recoveryActions c t) = 0%nat
  /\ (countActions isDisconnectCall (recoveryActions c t) <= 1)%nat.
Proof.
  unfold recoveryActions, countActions.
  destruct (_ || _); [|simpl; lia].
  destruct (snd (disconnect c t)); simpl; lia.
Qed.

(** X14: Whatever the client does, [handleConnect] never throws; in one call
    it calls [startBotAndConnect] exactly once and [disconnect] at most
    twice, and it leaves both transcripts of the store empty. *)
Theorem handleConnect_connects_once_and_never_throws (s : ConnectState T) :
  snd (handleConnect c s) = Completed
  /\ transcripts (store (fst (handleConnect c s))) = {| user := ""; bot := "" |}
  /\ exists new,
       actions (fst (handleConnect c s)) = actions s ++ new
       /\ countActions isStartCall new = 1%nat
       /\ (countActions isDisconnectCall new <= 2)%nat.
Proof.
  rewrite handleConnect_eq. cbn [fst snd store actions].
  split; [reflexivity|]. split; [reflexivity|].
  eexists. split; [reflexivity|].
  set (t1 := transportBeforeStart c (transport s)).
  destruct (count_reconnectPrelude (transport s)) as [Hs1 Hd1].
  destruct (count_recoveryActions (fst (startBotAndConnect c t1))) as [Hs2 Hd2].
  unfold countActions in *. rewrite !List.filter_app, !length_app.
  cbn [List.filter isStartCall isDisconnectCall length].
  destruct (snd (startBotAndConnect c t1)); cbn [List.filter length]; lia.
Qed.

(** X15: A reconnect is orderly: when the client is not disconnected,
    [handleConnect] first calls [disconnect], goes on even if that call
    fails (with a warning), waits 500 ms, and only then calls
    [startBotAndConnect], on the client the disconnect left behind; when
    the client is disconnected it connects at once.  If the connection
    succeeds nothing follows, and the client is the one
    [startBotAndConnect] returned. *)
Theorem reconnect_disconnects_waits_then_connects (s : ConnectState T) :
  let started := startBotAndConnect c (transportBeforeStart c (transport s)) in
  exists recovery,
    actions (fst (handleConnect c s)) =
      actions s ++ reconnectPrelude c (transport s)
        ++ CalledStartBotAndConnect :: recovery
    /\ (clientState c (transport s) = disconnected ->
        reconnectPrelude c (transport s) = [])
    /\ (clientState c (transport s) <> disconnected ->
        exists warning,
          reconnectPrelude c (transport s)
          = CalledDisconnect :: warning ++ [Waited 500]
          /\ (snd (disconnect c (transport s)) = true -> warning = []))
    /\ (snd started = true ->
        recovery = [] /\ transport (fst (handleConnect c s)) = fst started).
Proof.
  intros started. rewrite handleConnect_eq. fold started.
  cbn [fst snd transport actions].
  eexists. split; [reflexivity|]. unfold reconnectPrelude.
  split; [|split].
  - intros ->. reflexivity.
  - intros Hn.
    destruct (TransportState_eqb (clientState c (transport s)) disconnected) eqn:E.
    + apply TransportState_eqb_eq in E. contradiction.
    + eexists. split; [reflexivity|]. intros ->. reflexivity.
  - intros ->. split; reflexivity.
Qed.

(** X16: A failed attempt that leaves the client neither ready nor
    connecting is not followed by a disconnect: the client and the log
    stay as the attempt left them. *)
Theorem failure_elsewhere_forces_no_disconnect (s s1 : ConnectState T) :
  connectAttempt c s = (s1, Threw) ->
  clientState c (transport s1) <> ready ->
  clientState c (transport s1) <> connecting ->
  handleConnect c s = (s1, Completed).
Proof.
  intros Hfail Hr Hc. rewrite (handleConnect_after_failure c s s1 Hfail).
  rewrite recoverFromFailure_eq. unfold recoveryActions.
  destruct (TransportState_eqb (clientState c (transport s1)) ready) eqn:E1;
    [apply TransportState_eqb_eq in E1; contradiction|].
  destruct (TransportState_eqb (clientState c (transport s1)) connecting) eqn:E2;
    [apply TransportState_eqb_eq in E2; contradiction|].
  cbn [orb]. rewrite app_nil_r. destruct s1; reflexivity.
Qed.
End ConnectMore.

Lemma reconnect_disconnects_waits_then_connects_witness :
  let c := scriptedClient in
  let s := mkConnectState (ready, [(ready, true)]) initialApp [] in
  actions (fst (handleConnect c s))
  = [CalledDisconnect; Waited 500; CalledStartBotAndConnect]
  /\ clientState c (transport (fst (handleConnect c s))) = ready.
Proof.
  intros c s.
  destruct (reconnect_disconnects_waits_then_connects c s)
    as (recovery & Ha & _ & Hpre & Hok).
  destruct (Hok eq_refl) as [-> Ht].
  split; [rewrite Ha; reflexivity | rewrite Ht; reflexivity].
Defined.

Lemma failure_elsewhere_forces_no_disconnect_witness :
  let c := scriptedClient in
  let s := mkConnectState (disconnected, [(closing, false)]) initialApp [] in
  actions (fst (handleConnect c s)) = [CalledStartBotAndConnect]
  /\ clientState c (transport (fst (handleConnect c s))) = closing.
Proof.
  intros c s.
  rewrite (failure_elsewhere_forces_no_disconnect c s
             (mkConnectState (closing, [])
                (setTranscripts {| user := ""; bot := "" |} initialApp)
                [CalledStartBotAndConnect]) eq_refl);
    [split; reflexivity | discriminate | discriminate].
Defined.

(** * Further properties of the analysers *)

Lemma closeContext_never_open (a : Analyser) :
  audioContext (closeContext a) <> Some CtxOpen.
Proof. unfold closeContext. simpl. destruct (audioContext a); discriminate. Qed.

Lemma cancelIfSet_context (a : Analyser) :
  audioContext (cancelIfSet a) = audioContext a.
Proof.
  unfold cancelIfSet. destruct (animationId a) as [id|]; [|reflexivity].
  destruct (negb (id =? 0)%nat); reflexivity.
Qed.

(** Once its loop has ended an analyser stays as it is, but for a
    context that a later clean-up closes. *)
Lemma ended_stays_ended (step : Analyser -> LoopEvent -> Analyser)
    (es : list LoopEvent) (a : Analyser) :
  step = micStep \/ step = botStep ->
  loopEnded a ->
  loopEnded (fold_left step es a)
  /\ setBarsCalls (fold_left step es a) = setBarsCalls a
  /\ bars (fold_left step es a) = bars a
  /\ (audioContext a <> Some CtxOpen ->
      audioContext (fold_left step es a) <> Some CtxOpen).
Proof.
  intros Hstep. revert a.
  induction es as [|e es IH]; intros a [Hf Hp]; simpl; [repeat split; auto|].
  assert (H1 : loopEnded (step a e)
               /\ setBarsCalls (step a e) = setBarsCalls a
               /\ bars (step a e) = bars a
               /\ (audioContext a <> Some CtxOpen ->
                   audioContext (step a e) <> Some CtxOpen)).
  { destruct Hstep as [-> | ->]; destruct e; cbn [micStep botStep];
      rewrite ?Hp, ?(runFrame_idle _ a Hf), ?(cancelIfSet_idle a Hf);
      unfold loopEnded; simpl;
      (split; [split; first [assumption | reflexivity] | split; [reflexivity | split; [reflexivity|]]]);
      try (intros H; exact H);
      intros _; destruct (audioContext a); discriminate. }
  destruct H1 as (He & Hc & Hb & Hx).
  destruct (IH (step a e) He) as (He' & Hc' & Hb' & Hx').
  rewrite Hc', Hb'. repeat split; auto; apply He'.
Qed.

Lemma bot_context_exists (es : list LoopEvent) (a : Analyser) :
  audioContext a <> None -> audioContext (fold_left botStep es a) <> None.
Proof.
  revert a. induction es as [|e es IH]; intros a H; simpl; [exact H|].
  apply IH. destruct e; cbn [botStep]; auto.
  - unfold runFrame.
    set (a0 := {| animationId := animationId a; audioContext := audioContext a;
                  streamPending := streamPending a; bars := bars a;
                  setBarsCalls := setBarsCalls a; frameRequests := [];
                  nextFrameId := nextFrameId a |}).
    assert (G : forall (l : list nat) (x : Analyser),
              audioContext x <> None ->
              audioContext (fold_left (fun a' _ => animate samples a') l x) <> None).
    { induction l as [|i l IHl]; intros x Hx; simpl; [exact Hx|].
      apply IHl. exact Hx. }
    apply G. exact H.
  - unfold closeContext at 1. cbn [audioContext]. rewrite cancelIfSet_context.
    destruct (audioContext a); [discriminate | contradiction].
Qed.

Lemma bot_never_pending (es : list LoopEvent) (a : Analyser) :
  streamPending a = false -> streamPending (fold_left botStep es a) = false.
Proof.
  revert a. induction es as [|e es IH]; intros a H; simpl; [exact H|].
  apply IH. destruct e; cbn [botStep]; auto.
  - unfold runFrame.
    assert (G : forall (l : list nat) (x : Analyser),
              streamPending x = false ->
              streamPending (fold_left (fun a' _ => animate samples a') l x) = false).
    { induction l as [|i l IHl]; intros x Hx; simpl; [exact Hx|].
      apply IHl. exact Hx. }
    apply G. exact H.
  - destruct (cleanup_keeps_bars a) as (_ & _ & -> & _). exact H.
Qed.

(** X17: Disposing the bot analyser is final, at whatever moment of its life:
    afterwards no frame is requested, the bars are never set again, and
    the audio context is closed and stays closed. *)
Theorem bot_disposal_is_final (samples : list Z) (before after : list LoopEvent) :
  let disposed := botStep (fold_left botStep before (botMounted samples)) Cleanup in
  let final := fold_left botStep after disposed in
  frameRequests final = []
  /\ setBarsCalls final = setBarsCalls disposed
  /\ bars final = bars disposed
  /\ audioContext final = Some CtxClosed.
Proof.
  intros disposed final.
  set (a := fold_left botStep before (botMounted samples)) in *.
  assert (He : loopEnded disposed).
  { split.
    - apply cleanup_cancels, oneLoop_bot_run, oneLoop_botMounted.
    - subst disposed. cbn [botStep].
      destruct (cleanup_keeps_bars a) as (_ & _ & -> & _).
      apply bot_never_pending. reflexivity. }
  destruct (ended_stays_ended botStep after disposed (or_intror eq_refl) He)
    as ((Hf & _) & Hc & Hb & Hx).
  fold final in Hf, Hc, Hb, Hx.
  split; [exact Hf|]. split; [exact Hc|]. split; [exact Hb|].
  assert (Hctx : audioContext final <> None).
  { apply bot_context_exists. subst disposed. cbn [botStep].
    unfold closeContext at 1. cbn [audioContext].
    rewrite cancelIfSet_context.
    pose proof (bot_context_exists before (botMounted samples)) as H. fold a in H.
    destruct (audioContext a); [discriminate|]. apply H. discriminate. }
  specialize (Hx (closeContext_never_open _)).
  destruct (audioContext final) as [[|]|]; congruence.
Qed.




Lemma bot_frames_count (frames : list (list Z)) (a : Analyser) :
  (exists id, frameRequests a = [id]) ->
  (exists id, frameRequests
                (fold_left botStep (map AnimationFrame frames) a) = [id])
  /\ setBarsCalls (fold_left botStep (map AnimationFrame frames) a)
     = (setBarsCalls a + length frames)%nat
  /\ bars (fold_left botStep (map AnimationFrame frames) a)
     = match last frames with Some s => computeBars s | None => bars a end.
Proof.
  revert a. induction frames as [|f fs IH]; intros a [id Hf]; simpl.
  - split; [eauto|]. split; [lia | reflexivity].
  - assert (Hr : runFrame f a = animate f
                   {| animationId := animationId a; audioContext := audioContext a;
                      streamPending := streamPending a; bars := bars a;
                      setBarsCalls := setBarsCalls a; frameRequests := [];
                      nextFrameId := nextFrameId a |}).
    { unfold runFrame. rewrite Hf. reflexivity. }
    destruct (IH (runFrame f a)) as (He & Hc & Hb).
    { rewrite Hr. simpl. eauto. }
    split; [exact He|]. split.
    + rewrite Hc, Hr. simpl. lia.
    + rewrite Hb, Hr. simpl. destruct fs as [|g gs]; [reflexivity|].
      change (last (f :: g :: gs)) with (last (g :: gs)).
      destruct (last (g :: gs)) eqn:E; [reflexivity|].
      apply last_None in E. discriminate.
Qed.

(** X20: While the bot analyser runs, every animation frame sets the bars
    exactly once, to the analysis of that frame's samples; nothing of
    earlier frames is kept. *)
Theorem every_frame_replaces_the_bars
    (samples : list Z) (frames : list (list Z)) (latest : list Z) :
  let a := fold_left botStep (map AnimationFrame (frames ++ [latest]))
             (botMounted samples) in
  bars a = computeBars latest
  /\ setBarsCalls a = (length frames + 2)%nat.
Proof.
  intros a.
  destruct (bot_frames_count (frames ++ [latest]) (botMounted samples))
    as (_ & Hc & Hb); [simpl; eauto|].
  fold a in Hc, Hb. rewrite last_snoc in Hb. rewrite length_app in Hc.
  split; [exact Hb|]. rewrite Hc. simpl. lia.
Qed.



Section WaveformMore.
Local Open Scope R_scope.

Lemma energyFrame_initialBars : energyFrame initialBars.
Proof.
  split; [reflexivity|]. unfold initialBars. apply Forall_replicate. lra.
Qed.

Lemma energyFrame_computeBars (W : list Z) :
  isWindow W -> energyFrame (computeBars W).
Proof.
  intros [HW _]. split.
  - rewrite computeBars_map, length_map, length_seq. reflexivity.
  - apply Forall_forall. intros b Hb.
    apply list_elem_of_lookup in Hb as [i Hb].
    assert (Hi : (i < NUM_BARS)%nat).
    { apply lookup_lt_Some in Hb.
      rewrite computeBars_map, length_map, length_seq in Hb. exact Hb. }
    rewrite computeBars_lookup in Hb by assumption.
    injection Hb as <-. apply clamp_range.
Qed.

Lemma runFrame_bars (samples : list Z) (a : Analyser) :
  bars (runFrame samples a) = bars a
  \/ bars (runFrame samples a) = computeBars samples.
Proof.
  unfold runFrame.
  set (x := {| animationId := animationId a; audioContext := audioContext a;
               streamPending := streamPending a; bars := bars a;
               setBarsCalls := setBarsCalls a; frameRequests := [];
               nextFrameId := nextFrameId a |}).
  change (bars a) with (bars x). generalize (frameRequests a) x. clear.
  induction l as [|i l IH]; intros x; [left; reflexivity|].
  right. cbn [fold_left]. destruct (IH (animate samples x)) as [-> | ->]; reflexivity.
Qed.

Lemma energyFrame_step (step : Analyser -> LoopEvent -> Analyser)
    (a : Analyser) (e : LoopEvent) :
  step = micStep \/ step = botStep ->
  windowEvent e -> energyFrame (bars a) -> energyFrame (bars (step a e)).
Proof.
  intros Hstep He Ha.
  assert (Hclean : bars (closeContext (cancelIfSet a)) = bars a)
    by apply cleanup_keeps_bars.
  destruct Hstep as [-> | ->]; destruct e; cbn [micStep botStep windowEvent] in *;
    rewrite ?Hclean; try exact Ha.
  - destruct (streamPending a); [|exact Ha]. apply energyFrame_computeBars, He.
  - destruct (runFrame_bars samples a) as [-> | ->];
      [exact Ha | apply energyFrame_computeBars, He].
  - destruct (runFrame_bars samples a) as [-> | ->];
      [exact Ha | apply energyFrame_computeBars, He].
Qed.

Lemma energyFrame_run (step : Analyser -> LoopEvent -> Analyser)
    (es : list LoopEvent) (a : Analyser) :
  step = micStep \/ step = botStep ->
  Forall windowEvent es -> energyFrame (bars a) ->
  energyFrame (bars (fold_left step es a)).
Proof.
  intros Hstep Hes. revert a.
  induction Hes as [|e es He _ IH]; intros a Ha; [exact Ha|].
  cbn [fold_left]. apply IH, energyFrame_step; assumption.
Qed.

(** X22: Through the whole life of both analysers (before the first
    analysis, while the loop runs, after disposal) the bars on display
    are 32 heights within [5, 95], as long as every frame analyses a
    window of 256 bytes. *)
Theorem displayed_bars_are_always_an_energy_frame
    (samples : list Z) (es : list LoopEvent) :
  isWindow samples -> Forall windowEvent es ->
  energyFrame (bars (fold_left micStep es micMounted))
  /\ energyFrame (bars (fold_left botStep es (botMounted samples))).
Proof.
  intros Hs Hes. split.
  - apply energyFrame_run; auto. apply energyFrame_initialBars.
  - apply energyFrame_run; auto. apply energyFrame_computeBars, Hs.
Qed.

Lemma energy_nonneg (seg : list Z) : (0 <= energy seg)%Z.
Proof.
  induction seg as [|s seg IH]; [reflexivity|].
  cbn [energy fold_right]. fold (energy seg).
  pose proof (Z.square_nonneg (s - 128)). lia.
Qed.

Lemma sumOfSquares_energy (seg : list Z) :
  sumOfSquares (centred <$> seg) = IZR (energy seg) / 16384.
Proof.
  induction seg as [|s seg IH]; [simpl; lra|].
  rewrite sumOfSquares_cons, IH. cbn [energy fold_right].
  fold (energy seg). rewrite plus_IZR, mult_IZR, minus_IZR.
  unfold centred. lra.
Qed.

Lemma segmentOf_length (W : list Z) (i : nat) :
  length W = FFT_SIZE -> (i < NUM_BARS)%nat -> length (segmentOf W i) = 8%nat.
Proof.
  intros HW Hi. unfold segmentOf, FFT_SIZE, NUM_BARS in *.
  change (256 / 32)%nat with 8%nat.
  rewrite length_take, length_drop. lia.
Qed.

(** The bar of a segment, by the energy of the segment. *)
Lemma barSpec_energy (W : list Z) (i : nat) :
  length W = FFT_SIZE -> (i < NUM_BARS)%nat ->
  barSpec W i = clamp 5 95 (400 * sqrt (IZR (energy (segmentOf W i)) / 131072)).
Proof.
  intros HW Hi. unfold barSpec, rootMeanSquare.
  rewrite sumOfSquares_energy, length_fmap, (segmentOf_length W i HW Hi).
  f_equal. f_equal. f_equal. simpl. lra.
Qed.

Lemma clamp_floor (y : R) : clamp 5 95 y = 5 <-> y <= 5.
Proof.
  unfold clamp, Rmax, Rmin.
  destruct (Rle_dec 95 y); destruct (Rle_dec 5 _); split; lra.
Qed.

Lemma clamp_cap (y : R) : clamp 5 95 y = 95 <-> 95 <= y.
Proof.
  unfold clamp, Rmax, Rmin.
  destruct (Rle_dec 95 y); destruct (Rle_dec 5 _); split; lra.
Qed.

Lemma clamp_mono (y z : R) : y <= z -> clamp 5 95 y <= clamp 5 95 z.
Proof.
  unfold clamp, Rmax, Rmin. intros H.
  destruct (Rle_dec 95 y); destruct (Rle_dec 95 z);
    repeat match goal with |- context [Rle_dec ?a ?b] => destruct (Rle_dec a b) end;
    lra.
Qed.

(** X23: The height of a bar is decided by the energy of its segment alone:
    the bar rests at the floor 5 exactly when the energy is at most 20,
    and it reaches the cap 95 exactly when the energy is at least
    7394. *)
Theorem bar_floor_and_cap_by_energy (W : list Z) (i : nat) :
  isWindow W -> (i < NUM_BARS)%nat ->
  exists b,
    computeBars W !! i = Some b
    /\ (b = 5 <-> (energy (segmentOf W i) <= 20)%Z)
    /\ (b = 95 <-> (7394 <= energy (segmentOf W i))%Z).
Proof.
  intros [HW _] Hi. exists (barSpec W i).
  split; [apply computeBars_lookup; assumption|].
  rewrite (barSpec_energy W i HW Hi).
  set (E := energy (segmentOf W i)).
  assert (HE : 0 <= IZR E) by (apply IZR_le, energy_nonneg).
  set (x := IZR E / 131072).
  assert (Hx : 0 <= x) by (unfold x; lra).
  assert (Hr : 0 <= sqrt x) by apply sqrt_pos.
  assert (Hrr : sqrt x * sqrt x = x) by (apply sqrt_sqrt, Hx).
  assert (HxE : IZR E = 131072 * x) by (unfold x; lra).
  generalize dependent (sqrt x). intros r Hr Hrr.
  split.
  - rewrite clamp_floor. split.
    + intros H. assert (H0 : r * r <= (1 / 80) * (1 / 80))
        by (apply Rmult_le_compat; lra).
      assert (H1 : IZR E < IZR 21) by lra.
      apply lt_IZR in H1. lia.
    + intros H. assert (H1 : IZR E <= IZR 20) by (apply IZR_le, H).
      assert (H2 : r * r <= (1 / 80) * (1 / 80)) by lra.
      destruct (Rle_dec r (1 / 80)) as [|Hn]; [lra|].
      assert (H3 : (1 / 80) * (1 / 80) < r * r)
        by (apply Rmult_le_0_lt_compat; lra).
      lra.
  - rewrite clamp_cap. split.
    + intros H. assert (H0 : (19 / 80) * (19 / 80) <= r * r)
        by (apply Rmult_le_compat; lra).
      assert (H1 : IZR 7393 < IZR E) by lra.
      apply lt_IZR in H1. lia.
    + intros H. assert (H1 : IZR 7394 <= IZR E) by (apply IZR_le, H).
      assert (H2 : (19 / 80) * (19 / 80) < r * r) by lra.
      destruct (Rle_dec (19 / 80) r) as [|Hn]; [lra|].
      assert (H3 : r * r <= (19 / 80) * (19 / 80))
        by (apply Rmult_le_compat; lra).
      lra.
Qed.

(** X24: A segment with more energy never gives a lower bar, within one
    window or across two. *)
Theorem more_energy_never_lowers_the_bar (W W' : list Z) (i j : nat) :
  isWindow W -> isWindow W' -> (i < NUM_BARS)%nat -> (j < NUM_BARS)%nat ->
  (energy (segmentOf W i) <= energy (segmentOf W' j))%Z ->
  exists b b',
    computeBars W !! i = Some b /\ computeBars W' !! j = Some b' /\ b <= b'.
Proof.
  intros [HW _] [HW' _] Hi Hj HE.
  exists (barSpec W i), (barSpec W' j).
  split; [apply computeBars_lookup; assumption|].
  split; [apply computeBars_lookup; assumption|].
  rewrite (barSpec_energy W i HW Hi), (barSpec_energy W' j HW' Hj).
  apply clamp_mono. apply Rmult_le_compat_l; [lra|].
  apply sqrt_le_1_alt. apply IZR_le in HE. lra.
Qed.
End WaveformMore.

Lemma displayed_bars_are_always_an_energy_frame_witness :
  energyFrame (bars (fold_left micStep
                       [StreamGranted silence; AnimationFrame silence; Cleanup]
                       micMounted)).
Proof.
  apply (displayed_bars_are_always_an_energy_frame silence
           [StreamGranted silence; AnimationFrame silence; Cleanup]).
  - exact isWindow_silence.
  - constructor; [exact isWindow_silence|].
    constructor; [exact isWindow_silence|].
    constructor; [exact I|]. constructor.
Defined.

Lemma bar_floor_and_cap_by_energy_witness :
  exists b, computeBars silence !! 0%nat = Some b
            /\ (b = 5%R <-> (energy (segmentOf silence 0) <= 20)%Z)
            /\ (b = 95%R <-> (7394 <= energy (segmentOf silence 0))%Z).
Proof.
  apply (bar_floor_and_cap_by_energy silence 0).
  - exact isWindow_silence.
  - unfold NUM_BARS. lia.
Defined.

Lemma more_energy_never_lowers_the_bar_witness :
  exists b b',
    computeBars silence !! 0%nat = Some b
    /\ computeBars (replicate FFT_SIZE 0%Z) !! 0%nat = Some b' /\ (b <= b')%R.
Proof.
  apply (more_energy_never_lowers_the_bar silence (replicate FFT_SIZE 0%Z) 0 0).
  - exact isWindow_silence.
  - split; [reflexivity|]. apply Forall_replicate. lia.
  - unfold NUM_BARS. lia.
  - unfold NUM_BARS. lia.
  - vm_compute. discriminate.
Defined.
